(** * AvatarMusicBox: the NFC music player firmware (src/main.cpp)

    A shallow embedding of the play-mode logic of the firmware: the
    tag-presence tracking of [checkNFCTag], the playback decisions of
    [handleNewTag], [playSong] and [stopSong], the grace period of
    [handleGracePeriod], the button debouncing of [checkVolumeButtons],
    the volume clamp of [adjustVolume] and the song record written by
    [writeSongNumber] and decoded by [readSongNumberFromTag].

    The globals [state] and [buttons] of the sketch are threaded through
    a state monad that also logs every command sent to a peripheral.
    What the firmware reads from the outside (the millisecond clock, the
    button pins, the answers of the NFC reader) is passed to each
    function as an argument, one argument per read in the source. *)

From Stdlib Require Import ZArith Lia Bool List.
From stdpp Require Import base tactics option list gmap.
From Stdlib Require String Ascii.
Import ListNotations.
Import String.StringSyntax Ascii.AsciiSyntax.
Delimit Scope string_scope with string.
Delimit Scope char_scope with char.
Open Scope Z_scope.

(** ** Machine integers

    The target is a 32-bit ESP32: [unsigned long] and [int] are 32 bits
    wide, [uint8_t] is 8 bits wide. *)

Definition ULONG_MOD : Z := 2 ^ 32.
Definition INT_MIN : Z := - 2 ^ 31.
Definition INT_MAX : Z := 2 ^ 31 - 1.

(** [a - b] on [unsigned long]: the difference modulo 2^32. *)
Definition usub (a b : Z) : Z := (a - b) mod ULONG_MOD.

(** Two's complement reduction of a mathematical integer to [int]. *)
Definition wrap_int (z : Z) : Z := (z + 2 ^ 31) mod 2 ^ 32 - 2 ^ 31.

(** [a + b] on [int]; an overflowing sum wraps around, as the adder of
    the target does. *)
Definition int_add (a b : Z) : Z := wrap_int (a + b).

(** Conversion of an [int] to [uint8_t]. *)
Definition to_uint8 (z : Z) : Z := z mod 256.

Definition in_int (z : Z) : Prop := INT_MIN <= z <= INT_MAX.

(** ** Constants (main.cpp, lines 16-21) *)

Definition DEFAULT_VOLUME : Z := 20.
Definition MAX_VOLUME : Z := 30.
Definition MIN_VOLUME : Z := 0.
Definition NFC_CHECK_INTERVAL : Z := 200.
Definition TAG_GRACE_PERIOD : Z := 2000.
Definition BUTTON_DEBOUNCE_DELAY : Z := 200.

(** Logic levels of a digital pin, as stored in a [bool]. *)
Definition HIGH : bool := true.
Definition LOW : bool := false.

(** The characters of the record marker. *)
Definition chr_S : Z := 83.
Definition chr_O : Z := 79.
Definition chr_N : Z := 78.

(** ** State variables (main.cpp, lines 29-45) *)

Record SystemState : Type := mkSystemState {
  lastUID : list Z;              (* uint8_t lastUID[7] *)
  lastUIDLength : Z;
  lastTagDetectionTime : Z;
  lastNFCCheckTime : Z;
  isTagPresent : bool;
  isSongPlaying : bool;
  currentTrack : Z;
  currentVolume : Z
}.

Record ButtonState : Type := mkButtonState {
  lastUpState : bool;
  lastDownState : bool;
  lastUpPress : Z;
  lastDownPress : Z
}.

Definition state_init : SystemState :=
  {| lastUID := [0; 0; 0; 0; 0; 0; 0];
     lastUIDLength := 0;
     lastTagDetectionTime := 0;
     lastNFCCheckTime := 0;
     isTagPresent := false;
     isSongPlaying := false;
     currentTrack := 0;
     currentVolume := DEFAULT_VOLUME |}.

Definition buttons_init : ButtonState :=
  {| lastUpState := HIGH;
     lastDownState := HIGH;
     lastUpPress := 0;
     lastDownPress := 0 |}.

(** The two global objects of the sketch. *)
Record Globals : Type := mkGlobals {
  state : SystemState;
  buttons : ButtonState
}.

Definition globals_init : Globals :=
  {| state := state_init; buttons := buttons_init |}.

(** Field assignments. *)

Definition set_lastUID (v : list Z) (s : SystemState) : SystemState :=
  mkSystemState v (lastUIDLength s) (lastTagDetectionTime s)
    (lastNFCCheckTime s) (isTagPresent s) (isSongPlaying s)
    (currentTrack s) (currentVolume s).

Definition set_lastUIDLength (v : Z) (s : SystemState) : SystemState :=
  mkSystemState (lastUID s) v (lastTagDetectionTime s)
    (lastNFCCheckTime s) (isTagPresent s) (isSongPlaying s)
    (currentTrack s) (currentVolume s).

Definition set_lastTagDetectionTime (v : Z) (s : SystemState) : SystemState :=
  mkSystemState (lastUID s) (lastUIDLength s) v
    (lastNFCCheckTime s) (isTagPresent s) (isSongPlaying s)
    (currentTrack s) (currentVolume s).

Definition set_lastNFCCheckTime (v : Z) (s : SystemState) : SystemState :=
  mkSystemState (lastUID s) (lastUIDLength s) (lastTagDetectionTime s)
    v (isTagPresent s) (isSongPlaying s)
    (currentTrack s) (currentVolume s).

Definition set_isTagPresent (v : bool) (s : SystemState) : SystemState :=
  mkSystemState (lastUID s) (lastUIDLength s) (lastTagDetectionTime s)
    (lastNFCCheckTime s) v (isSongPlaying s)
    (currentTrack s) (currentVolume s).

Definition set_isSongPlaying (v : bool) (s : SystemState) : SystemState :=
  mkSystemState (lastUID s) (lastUIDLength s) (lastTagDetectionTime s)
    (lastNFCCheckTime s) (isTagPresent s) v
    (currentTrack s) (currentVolume s).

Definition set_currentTrack (v : Z) (s : SystemState) : SystemState :=
  mkSystemState (lastUID s) (lastUIDLength s) (lastTagDetectionTime s)
    (lastNFCCheckTime s) (isTagPresent s) (isSongPlaying s)
    v (currentVolume s).

Definition set_currentVolume (v : Z) (s : SystemState) : SystemState :=
  mkSystemState (lastUID s) (lastUIDLength s) (lastTagDetectionTime s)
    (lastNFCCheckTime s) (isTagPresent s) (isSongPlaying s)
    (currentTrack s) v.

Definition set_lastUpState (v : bool) (b : ButtonState) : ButtonState :=
  mkButtonState v (lastDownState b) (lastUpPress b) (lastDownPress b).

Definition set_lastDownState (v : bool) (b : ButtonState) : ButtonState :=
  mkButtonState (lastUpState b) v (lastUpPress b) (lastDownPress b).

Definition set_lastUpPress (v : Z) (b : ButtonState) : ButtonState :=
  mkButtonState (lastUpState b) (lastDownState b) v (lastDownPress b).

Definition set_lastDownPress (v : Z) (b : ButtonState) : ButtonState :=
  mkButtonState (lastUpState b) (lastDownState b) (lastUpPress b) v.

(** ** Commands sent to the peripherals

    Every call on the audio module, the indicator LED and the tag memory
    of the NFC reader is logged, in program order.  Text printed on the
    serial console is not part of the log. *)

Inductive Effect : Type :=
| DfVolume (level : Z)                       (* dfPlayer.volume *)
| DfPlay (track : Z)                         (* dfPlayer.play *)
| DfStop                                     (* dfPlayer.stop *)
| DfEQ                                       (* dfPlayer.EQ *)
| DfOutputDevice                             (* dfPlayer.outputDevice *)
| LedWrite (on : bool)                       (* digitalWrite(LED_PIN, _) *)
| NfcReadPage (page : Z)                     (* nfc.ntag2xx_ReadPage *)
| NfcWritePage (page : Z) (data : list Z).   (* nfc.ntag2xx_WritePage *)

Definition is_stop (e : Effect) : bool :=
  match e with DfStop => true | _ => false end.
Definition is_play (e : Effect) : bool :=
  match e with DfPlay _ => true | _ => false end.
Definition is_volume (e : Effect) : bool :=
  match e with DfVolume _ => true | _ => false end.
Definition is_read_page (e : Effect) : bool :=
  match e with NfcReadPage _ => true | _ => false end.

(** Number of commands of one kind in a log. *)
Fixpoint count (p : Effect -> bool) (log : list Effect) : nat :=
  match log with
  | [] => 0%nat
  | e :: log' => ((if p e then 1 else 0) + count p log')%nat
  end.

(** ** The monad of the firmware: global state and command log *)

Definition M (A : Type) : Type := Globals -> A * Globals * list Effect.

#[global] Instance M_ret : MRet M := fun A (a : A) g => (a, g, []).

#[global] Instance M_bind : MBind M := fun A B (k : A -> M B) (m : M A) g =>
  let '(a, g1, log1) := m g in
  let '(b, g2, log2) := k a g1 in
  (b, g2, log1 ++ log2).

Definition get_state : M SystemState := fun g => (state g, g, []).
Definition get_buttons : M ButtonState := fun g => (buttons g, g, []).
Definition upd_state (f : SystemState -> SystemState) : M unit :=
  fun g => (tt, mkGlobals (f (state g)) (buttons g), []).
Definition upd_buttons (f : ButtonState -> ButtonState) : M unit :=
  fun g => (tt, mkGlobals (state g) (f (buttons g)), []).
Definition emit (e : Effect) : M unit := fun g => (tt, g, [e]).

(** Final globals and log of a run. *)
Definition globals_of {A} (r : A * Globals * list Effect) : Globals := snd (fst r).
Definition log_of {A} (r : A * Globals * list Effect) : list Effect := snd r.
Definition value_of {A} (r : A * Globals * list Effect) : A := fst (fst r).

(** ** Playback control (main.cpp, lines 116-133) *)

Definition setLED (on : bool) : M unit :=
  emit (LedWrite (if on then HIGH else LOW)).

Definition playSong (trackNumber : Z) : M unit :=
  emit (DfPlay trackNumber);;
  setLED true;;
  upd_state (set_currentTrack trackNumber);;
  upd_state (set_isSongPlaying true).

Definition stopSong : M unit :=
  s ← get_state;
  if negb (isSongPlaying s) then mret tt
  else
    emit DfStop;;
    setLED false;;
    upd_state (set_isSongPlaying false);;
    upd_state (set_currentTrack 0).

(** ** Volume control (main.cpp, lines 136-163) *)

Definition adjustVolume (delta : Z) : M unit :=
  s ← get_state;
  let newVolume := int_add (currentVolume s) delta in
  let newVolume := if newVolume <? MIN_VOLUME then MIN_VOLUME else newVolume in
  let newVolume := if newVolume >? MAX_VOLUME then MAX_VOLUME else newVolume in
  upd_state (set_currentVolume newVolume);;
  s' ← get_state;
  emit (DfVolume (to_uint8 (currentVolume s'))).

(** The block of the "up" button, lines 150-155. *)
Definition volumeUpBlock (now : Z) (upPressed : bool) : M unit :=
  b ← get_buttons;
  (if upPressed && negb (lastUpState b) &&
      (usub now (lastUpPress b) >? BUTTON_DEBOUNCE_DELAY)
   then adjustVolume 1;; upd_buttons (set_lastUpPress now)
   else mret tt);;
  upd_buttons (set_lastUpState upPressed).

(** The block of the "down" button, lines 157-162. *)
Definition volumeDownBlock (now : Z) (downPressed : bool) : M unit :=
  b ← get_buttons;
  (if downPressed && negb (lastDownState b) &&
      (usub now (lastDownPress b) >? BUTTON_DEBOUNCE_DELAY)
   then adjustVolume (-1);; upd_buttons (set_lastDownPress now)
   else mret tt);;
  upd_buttons (set_lastDownState downPressed).

(** [now] is the value of [millis()], [pinUp] and [pinDown] are the
    levels read from the two button pins. *)
Definition checkVolumeButtons (now : Z) (pinUp pinDown : bool) : M unit :=
  let upPressed := Bool.eqb pinUp LOW in
  let downPressed := Bool.eqb pinDown LOW in
  volumeUpBlock now upPressed;;
  volumeDownBlock now downPressed.

(** Bring-up of the audio module (lines 101-113).  When the module does
    not answer the firmware spins forever: there is no result. *)
Definition initializeDFPlayer (beginOk : bool) : option (list Effect) :=
  if negb beginOk then None
  else Some [DfVolume (to_uint8 DEFAULT_VOLUME); DfEQ; DfOutputDevice].

(** ** The tag as seen through the NFC reader

    The reader driver is an external library.  Its three calls used by
    the firmware are modelled by what they answer: [readPassiveTargetID]
    answers nothing or the UID bytes of the tag in the field (the UID
    length is the length of the list); [ntag2xx_ReadPage] fails or
    answers the 4 bytes of a page; [ntag2xx_WritePage] fails or stores
    the 4 bytes.  The user memory of a tag is a finite map from page
    numbers to pages. *)

Definition ntag2xx_ReadPage (page : Z) (ok : bool) (mem : gmap Z (list Z))
  : option (list Z) :=
  if ok then mem !! page else None.

Definition ntag2xx_WritePage (page : Z) (data : list Z) (ok : bool)
    (mem : gmap Z (list Z)) : gmap Z (list Z) * bool :=
  if ok then (<[page := data]> mem, true) else (mem, false).

(** ** Tag reading and writing (main.cpp, lines 166-204) *)

(** [page] is the answer of [nfc.ntag2xx_ReadPage(4, data)]. *)
Definition readSongNumberFromTag (page : option (list Z)) : M Z :=
  emit (NfcReadPage 4);;
  match page with
  | None => mret (-1)
  | Some data =>
      if (nth 0 data 0 =? chr_S) && (nth 1 data 0 =? chr_O) &&
         (nth 2 data 0 =? chr_N)
      then
        let songNum := nth 3 data 0 in
        if (songNum >=? 1) && (songNum <=? 99) then mret songNum
        else mret (-1)
      else mret (-1)
  end.

(** The polling loop of lines 187-190, from attempt [i] with [fuel]
    attempts left; [detect k] tells whether attempt [k] sees a tag. *)
Fixpoint waitForTag (detect : nat -> bool) (i fuel : nat) : bool :=
  match fuel with
  | O => false
  | S fuel' => if detect i then true else waitForTag detect (S i) fuel'
  end.

(** [writeSongNumber] acts on the tag in the field only: it returns the
    memory of the tag afterwards and the commands sent to the reader. *)
Definition writeSongNumber (songNum : Z) (detect : nat -> bool)
    (writeOk : bool) (mem : gmap Z (list Z))
  : gmap Z (list Z) * list Effect :=
  let success := waitForTag detect 0 50 in
  if negb success then (mem, [])
  else
    let data := [chr_S; chr_O; chr_N; songNum] in
    let r := ntag2xx_WritePage 4 data writeOk mem in
    (fst r, [NfcWritePage 4 data]).

(** ** Tag handling in play mode (main.cpp, lines 63-68 and 224-261) *)

Fixpoint uidsMatch_from (uid1 uid2 : list Z) (i fuel : nat) : bool :=
  match fuel with
  | O => true
  | S fuel' =>
      if negb (nth i uid1 0 =? nth i uid2 0) then false
      else uidsMatch_from uid1 uid2 (S i) fuel'
  end.

Definition uidsMatch (uid1 uid2 : list Z) (length : nat) : bool :=
  uidsMatch_from uid1 uid2 0 length.

Definition handleNewTag (rawUID : list Z) (page : option (list Z)) : M unit :=
  songNumber ← readSongNumberFromTag page;
  if songNumber =? -1 then stopSong
  else
    s ← get_state;
    (if isSongPlaying s && negb (currentTrack s =? songNumber)
     then stopSong else mret tt);;
    s ← get_state;
    (if negb (isSongPlaying s) then playSong songNumber else mret tt).

(** The test of line 242. *)
Definition isNewTag (uid : list Z) (s : SystemState) : bool :=
  negb (isTagPresent s) || negb (uidsMatch uid (lastUID s) (length uid)).

(** [target] is the answer of [nfc.readPassiveTargetID], [now] the value
    of [millis()] on line 241, [page] the answer of the page read made
    by [handleNewTag]. *)
Definition checkNFCTag (target : option (list Z)) (now : Z)
    (page : option (list Z)) : M unit :=
  match target with
  | Some uid =>
      upd_state (set_lastTagDetectionTime now);;
      s ← get_state;
      (if isNewTag uid s then
         handleNewTag uid page;;
         upd_state (fun s => set_lastUID (uid ++ drop (length uid) (lastUID s)) s);;
         upd_state (set_lastUIDLength (Z.of_nat (length uid)))
       else mret tt);;
      upd_state (set_isTagPresent true)
  | None =>
      s ← get_state;
      if isTagPresent s then upd_state (set_isTagPresent false) else mret tt
  end.

Definition handleGracePeriod (now : Z) : M unit :=
  s ← get_state;
  if isTagPresent s || negb (isSongPlaying s) then mret tt
  else
    let timeSinceRemoval := usub now (lastTagDetectionTime s) in
    if timeSinceRemoval >? TAG_GRACE_PERIOD then stopSong else mret tt.

(** ** One iteration of [loop] in play mode (main.cpp, lines 309-317)

    [handleSerialCommands] leaves [currentMode] at [PLAY_MODE] on every
    path, so the body guarded by [currentMode == PLAY_MODE] runs on every
    iteration.  A [Tick] holds what the iteration reads from the outside. *)

Record Tick : Type := mkTick {
  ms_loop : Z;                     (* millis() on line 310 *)
  ms_buttons : Z;                  (* millis() on line 146 *)
  pin_up : bool;
  pin_down : bool;
  nfc_target : option (list Z);    (* answer of the reader, if polled *)
  ms_detect : Z;                   (* millis() on line 241 *)
  nfc_page : option (list Z);      (* page 4, if read *)
  ms_grace : Z                     (* millis() on line 259 *)
}.

Definition poll_due (now : Z) (s : SystemState) : bool :=
  usub now (lastNFCCheckTime s) >=? NFC_CHECK_INTERVAL.

Definition loop_play (i : Tick) : M unit :=
  let now := ms_loop i in
  checkVolumeButtons (ms_buttons i) (pin_up i) (pin_down i);;
  s ← get_state;
  (if poll_due now s then
     checkNFCTag (nfc_target i) (ms_detect i) (nfc_page i);;
     upd_state (set_lastNFCCheckTime now)
   else mret tt);;
  handleGracePeriod (ms_grace i).

(** The logs of a run of iterations, one log per iteration. *)
Fixpoint run_ticks (ticks : list Tick) (g : Globals) : Globals * list (list Effect) :=
  match ticks with
  | [] => (g, [])
  | i :: ticks' =>
      let r := loop_play i g in
      let r' := run_ticks ticks' (globals_of r) in
      (fst r', log_of r :: snd r')
  end.

(** ** Runs of several calls *)

(** Actions run one after the other. *)
Fixpoint mseq (ms : list (M unit)) : M unit :=
  match ms with
  | [] => mret tt
  | m :: ms' => m;; mseq ms'
  end.

(** One sample of the two button pins: the clock and the two levels. *)
Record Sample : Type := mkSample {
  sample_ms : Z;
  sample_up : bool;
  sample_down : bool
}.

Definition check_sample (x : Sample) : M unit :=
  checkVolumeButtons (sample_ms x) (sample_up x) (sample_down x).

(** A press of the "up" button seen by the firmware: a sample with the
    pin released at [released], then a sample with the pin pulled low at
    [pressed]; the other button stays released. *)
Definition press_up (p : Z * Z) : M unit :=
  checkVolumeButtons (fst p) HIGH HIGH;;
  checkVolumeButtons (snd p) LOW HIGH.

Definition press_down (p : Z * Z) : M unit :=
  checkVolumeButtons (fst p) HIGH HIGH;;
  checkVolumeButtons (snd p) HIGH LOW.

(** The presses of a list are more than the debounce delay apart, the
    first one counted from [last]. *)
Fixpoint spaced (last : Z) (ps : list (Z * Z)) : Prop :=
  match ps with
  | [] => True
  | p :: ps' => usub (snd p) last > BUTTON_DEBOUNCE_DELAY /\ spaced (snd p) ps'
  end.

(** [DfVolume (f 1); ...; DfVolume (f n)]. *)
Definition volume_commands (f : Z -> Z) (n : nat) : list Effect :=
  map (fun j => DfVolume (f (Z.of_nat j))) (seq 1 n).

(** A poll of the reader that finds the tag [uid]: the clock and the
    answer a read of page 4 would get. *)
Definition poll_tag (uid : list Z) (p : Z * option (list Z)) : M unit :=
  checkNFCTag (Some uid) (fst p) (snd p).

(** ** Vocabulary of the specification *)

Definition clamp (z lo hi : Z) : Z :=
  if z <? lo then lo else if z >? hi then hi else z.

Definition volume_in_range (v : Z) : Prop := MIN_VOLUME <= v <= MAX_VOLUME.

(** The press condition of one button: the sample is active, the sample
    before was not, and more than the debounce delay has passed since
    the last accepted press. *)
Definition press_event (activeNow activeBefore : bool) (now lastAccepted : Z)
  : Prop :=
  activeNow = true /\ activeBefore = false /\
  usub now lastAccepted > BUTTON_DEBOUNCE_DELAY.

(** A track is recorded exactly when a song is playing. *)
Definition playback_inv (s : SystemState) : Prop :=
  isSongPlaying s = true <-> currentTrack s <> 0.

(** The UID the state holds: the first [lastUIDLength] bytes of [lastUID]. *)
Definition stored_uid (s : SystemState) : list Z :=
  take (Z.to_nat (lastUIDLength s)) (lastUID s).

(** The answer of a page read is no valid song record: the read failed,
    the marker is wrong or the song number is outside 1..99. *)
Definition bad_record (page : option (list Z)) : Prop :=
  match page with
  | None => True
  | Some data =>
      ~ (nth 0 data 0 = chr_S /\ nth 1 data 0 = chr_O /\ nth 2 data 0 = chr_N)
      \/ ~ (1 <= nth 3 data 0 <= 99)
  end.

(** The song number a page read decodes to. *)
Definition song_of (page : option (list Z)) : Z :=
  value_of (readSongNumberFromTag page globals_init).

(** Time since the last detection as [handleGracePeriod] computes it in
    iteration [i], for the detection time held in [g]. *)
Definition elapsed (g : Globals) (i : Tick) : Z :=
  usub (ms_grace i) (lastTagDetectionTime (state g)).

Definition polls_in (g : Globals) (i : Tick) : Prop :=
  poll_due (ms_loop i) (state g) = true.

Definition stops_per_tick (logs : list (list Effect)) : list nat :=
  map (count is_stop) logs.

(** ** Example data *)

(** Track 7 is playing. *)
Definition playing7 : Globals :=
  mkGlobals (set_isSongPlaying true (set_currentTrack 7 state_init)) buttons_init.

(** Fifteen presses, 300 ms apart, each released 100 ms before. *)
Definition press_times (k : nat) : Z * Z :=
  (900 + 300 * Z.of_nat k, 1000 + 300 * Z.of_nat k).

Definition fifteen_presses : list (Z * Z) := map press_times (seq 0 15).

(** The "up" button was released at the last sample. *)
Definition after_release : Globals :=
  mkGlobals state_init (set_lastUpState false buttons_init).

(** A release 50 ms and a second press 100 ms after a press. *)
Definition bounce_samples (t1 : Z) : list Sample :=
  [mkSample (t1 + 50) HIGH HIGH; mkSample (t1 + 100) LOW HIGH].

(** A 7-byte tag is on the reader, last seen at 1000 ms, and its track 7
    is playing. *)
Definition long_uid : list Z := [4; 161; 178; 195; 212; 229; 246].

Definition tag7_present : Globals :=
  mkGlobals
    {| lastUID := long_uid;
       lastUIDLength := 7;
       lastTagDetectionTime := 1000;
       lastNFCCheckTime := 1000;
       isTagPresent := true;
       isSongPlaying := true;
       currentTrack := 7;
       currentVolume := DEFAULT_VOLUME |}
    (set_lastDownState false (set_lastUpState false buttons_init)).

(** A 4-byte UID equal to the first four bytes of [long_uid]. *)
Definition short_uid : list Z := [4; 161; 178; 195].

(** An iteration at time [t] with both buttons released and the reader
    answering [target] and [page]. *)
Definition tick_at (t : Z) (target page : option (list Z)) : Tick :=
  mkTick t t HIGH HIGH target t page t.

Definition away_ticks : list Tick :=
  [tick_at 1200 None None; tick_at 2000 None None; tick_at 3000 None None].

Definition song7_page : option (list Z) := Some [chr_S; chr_O; chr_N; 7].

(** ** The peripherals as the command log drives them

    The audio module plays one track or none, the indicator LED is on or
    off, and the module holds a volume level.  [device_step] follows one
    command; it has no result when the command breaks the protocol: a
    play command while a track plays, a stop command while none plays,
    or a volume outside 0..30. *)

Record Device : Type := mkDevice {
  dev_track : Z;          (* 0: no track is playing *)
  dev_led : bool;
  dev_volume : Z
}.

Definition device_step (d : Device) (e : Effect) : option Device :=
  match e with
  | DfPlay n =>
      if dev_track d =? 0 then Some (mkDevice n (dev_led d) (dev_volume d))
      else None
  | DfStop =>
      if dev_track d =? 0 then None
      else Some (mkDevice 0 (dev_led d) (dev_volume d))
  | DfVolume v =>
      if (MIN_VOLUME <=? v) && (v <=? MAX_VOLUME)
      then Some (mkDevice (dev_track d) (dev_led d) v)
      else None
  | LedWrite on => Some (mkDevice (dev_track d) on (dev_volume d))
  | _ => Some d
  end.

Fixpoint device_run (d : Device) (log : list Effect) : option Device :=
  match log with
  | [] => Some d
  | e :: log' =>
      match device_step d e with
      | Some d' => device_run d' log'
      | None => None
      end
  end.

(** The peripherals as the firmware believes them to be. *)
Definition mirror (g : Globals) : Device :=
  mkDevice (currentTrack (state g)) (isSongPlaying (state g))
    (currentVolume (state g)).

(** The play and stop commands of a log, in order. *)
Definition playback_cmds (log : list Effect) : list Effect :=
  List.filter (fun e => is_stop e || is_play e) log.

(** The UID buffer has its 7 bytes and the stored length fits in it. *)
Definition uid_buffer_ok (s : SystemState) : Prop :=
  length (lastUID s) = 7%nat /\ 0 <= lastUIDLength s <= 7.

(** The reader answers UIDs of at most 7 bytes. *)
Definition uid_fits (i : Tick) : Prop :=
  match nfc_target i with
  | Some uid => (length uid <= 7)%nat
  | None => True
  end.

(** What the firmware holds about the tag on the reader. *)
Definition tag_fields (s : SystemState)
  : list Z * Z * Z * Z * bool :=
  (lastUID s, lastUIDLength s, lastTagDetectionTime s, lastNFCCheckTime s,
   isTagPresent s).

(** An action keeps the peripherals in step with the firmware state:
    run from a state the peripherals mirror, its commands are accepted
    and lead to the peripherals mirroring the state it ends in. *)
Definition follows {A} (m : M A) : Prop :=
  forall g : Globals,
    playback_inv (state g) ->
    device_run (mirror g) (log_of (m g)) = Some (mirror (globals_of (m g))) /\
    playback_inv (state (globals_of (m g))).

(** An action keeps a property of the system state. *)
Definition keeps {A} (P : SystemState -> Prop) (m : M A) : Prop :=
  forall g : Globals, P (state g) -> P (state (globals_of (m g))).

(** ** Operator commands (main.cpp, lines 47-49, 206-221 and 264-320)

    The command handler works on the tag in the field and on
    [currentMode]; it is given the mode and the tag memory and returns
    them.  What it reads from the outside is collected in a [CmdInput]:
    the line read from the serial port after [trim()] (nothing when no
    input is available), the answers of the reader to the polling
    attempts, and whether the page write and the page read succeed.
    [String::toInt] belongs to the Arduino core and is a parameter. *)

Inductive Mode : Type := PLAY_MODE | WRITE_MODE | READ_MODE.

Record CmdInput : Type := mkCmdInput {
  serial_line : option String.string;
  cmd_detect : nat -> bool;
  cmd_writeOk : bool;
  cmd_readOk : bool
}.

(** The branch a command took, standing for the lines it prints;
    [ReadRun (Some n)] is the line "Song number: n". *)
Inductive Outcome : Type :=
| NoInput
| WriteRun
| RangeError
| ReadRun (printed : option Z)
| SwitchedToPlay
| Usage
| EmptyLine.

(** The commands a call on the tag has sent, added to the log. *)
Definition emit_all (log : list Effect) : M unit := fun g => (tt, g, log).

(** [readSongTag]: the result is the song number it prints, if any. *)
Definition readSongTag (detect : nat -> bool) (page : option (list Z))
  : M (option Z) :=
  let success := waitForTag detect 0 50 in
  if negb success then mret None
  else
    songNum ← readSongNumberFromTag page;
    if negb (songNum =? -1) then mret (Some songNum) else mret None.

Definition handleSerialCommands (toInt : String.string -> Z) (inp : CmdInput)
    (currentMode : Mode) (mem : gmap Z (list Z))
  : M (Mode * gmap Z (list Z) * Outcome) :=
  match serial_line inp with
  | None => mret (currentMode, mem, NoInput)
  | Some cmd =>
      if String.prefix "write " cmd then
        let songNum :=
          toInt (String.substring 6 (String.length cmd - 6) cmd) in
        if (songNum >=? 1) && (songNum <=? 99) then
          (* currentMode = WRITE_MODE during the call *)
          let w := writeSongNumber (to_uint8 songNum) (cmd_detect inp)
                     (cmd_writeOk inp) mem in
          emit_all (snd w);;
          mret (PLAY_MODE, fst w, WriteRun)
        else mret (currentMode, mem, RangeError)
      else if String.eqb cmd "read" then
        (* currentMode = READ_MODE during the call *)
        printed ← readSongTag (cmd_detect inp)
                    (ntag2xx_ReadPage 4 (cmd_readOk inp) mem);
        mret (PLAY_MODE, mem, ReadRun printed)
      else if String.eqb cmd "playmode" then
        mret (PLAY_MODE, mem, SwitchedToPlay)
      else if (0 <? String.length cmd)%nat then mret (currentMode, mem, Usage)
      else mret (currentMode, mem, EmptyLine)
  end.

(** One iteration of [loop]: the command handler, then the play-mode
    body when the mode is [PLAY_MODE]. *)
Definition loop (toInt : String.string -> Z) (inp : CmdInput) (i : Tick)
    (currentMode : Mode) (mem : gmap Z (list Z))
  : M (Mode * gmap Z (list Z) * Outcome) :=
  r ← handleSerialCommands toInt inp currentMode mem;
  (match fst (fst r) with
   | PLAY_MODE => loop_play i
   | _ => mret tt
   end);;
  mret r.

(** A [toInt] for the examples: the value of the leading decimal digits. *)
Fixpoint digits_value (acc : Z) (s : String.string) : Z :=
  match s with
  | String.String c rest =>
      let d := Z.of_nat (Ascii.nat_of_ascii c) - 48 in
      if (0 <=? d) && (d <=? 9) then digits_value (10 * acc + d) rest else acc
  | String.EmptyString => acc
  end.

Definition write_7 : CmdInput :=
  mkCmdInput (Some "write 7"%string) (fun k => Nat.eqb k 2) true true.

Definition write_100 : CmdInput :=
  mkCmdInput (Some "write 100"%string) (fun _ => true) true true.

Definition read_cmd : CmdInput :=
  mkCmdInput (Some "read"%string) (fun _ => true) true true.

(** ** Printing a UID (main.cpp, lines 52-61)

    [String(value, HEX)] of the Arduino core writes an unsigned value
    with the digits 0-9 and a-f, most significant first, without leading
    zeros; [toUpperCase] maps the letters a-z to A-Z. *)

Definition digit_char (d : Z) : Ascii.ascii :=
  Ascii.ascii_of_nat (Z.to_nat (if d <? 10 then 48 + d else 87 + d)).

Fixpoint utoa_from (fuel : nat) (base v : Z) (acc : String.string)
  : String.string :=
  match fuel with
  | O => acc
  | S fuel' =>
      let acc' := String.String (digit_char (v mod base)) acc in
      if v / base =? 0 then acc' else utoa_from fuel' base (v / base) acc'
  end.

Definition String_HEX (v : Z) : String.string := utoa_from 8 16 v String.EmptyString.

Definition toupper (c : Ascii.ascii) : Ascii.ascii :=
  let n := Z.of_nat (Ascii.nat_of_ascii c) in
  if (97 <=? n) && (n <=? 122) then Ascii.ascii_of_nat (Z.to_nat (n - 32))
  else c.

Fixpoint toUpperCase (s : String.string) : String.string :=
  match s with
  | String.EmptyString => String.EmptyString
  | String.String c rest => String.String (toupper c) (toUpperCase rest)
  end.

(** The loop of lines 54-58 from index [i], with [fuel] bytes to go. *)
Fixpoint uidToString_from (uid : list Z) (i fuel : nat) (result : String.string)
  : String.string :=
  match fuel with
  | O => result
  | S fuel' =>
      let result := if (0 <? i)%nat then String.append result ":" else result in
      let result :=
        if nth i uid 0 <? 16 then String.append result "0" else result in
      let result := String.append result (String_HEX (nth i uid 0)) in
      uidToString_from uid (S i) fuel' result
  end.

Definition uidToString (uid : list Z) (length : nat) : String.string :=
  toUpperCase (uidToString_from uid 0 length String.EmptyString).

(** A byte as two upper-case hexadecimal digits. *)
Definition upper_digit (d : Z) : Ascii.ascii :=
  Ascii.ascii_of_nat (Z.to_nat (if d <? 10 then 48 + d else 55 + d)).

Definition hex2 (b : Z) : String.string :=
  String.String (upper_digit (b / 16))
    (String.String (upper_digit (b mod 16)) String.EmptyString).

(** The bytes as two-digit groups separated by colons. *)
Definition uid_text (uid : list Z) : String.string :=
  String.concat ":" (map hex2 uid).

Definition is_byte (b : Z) : Prop := 0 <= b < 256.

(** The value of an upper-case hexadecimal digit. *)
Definition digit_value (c : Ascii.ascii) : Z :=
  let n := Z.of_nat (Ascii.nat_of_ascii c) in
  if n <? 58 then n - 48 else n - 55.

(** ** Start-up and the whole run (main.cpp, lines 77-99 and 294-320) *)

Definition initializeLED : list Effect := [LedWrite LOW].

(** [version] is the answer of [nfc.getFirmwareVersion()]; with no
    reader found the firmware spins forever.  The configuration calls on
    the reader are not part of the log. *)
Definition initializeNFC (version : Z) : option (list Effect) :=
  if version =? 0 then None else Some [].

(** [setup]: the commands sent during bring-up, when it returns. *)
Definition setup (dfBeginOk : bool) (version : Z) : option (list Effect) :=
  match initializeDFPlayer dfBeginOk with
  | None => None
  | Some dfLog =>
      match initializeNFC version with
      | None => None
      | Some nfcLog => Some (initializeLED ++ dfLog ++ nfcLog)
      end
  end.

(** A run of [loop] iterations, each with its command input and its
    play-mode readings: the mode, the tag memory and the globals at the
    end, and the log of every iteration. *)
Fixpoint run_loop (toInt : String.string -> Z) (its : list (CmdInput * Tick))
    (currentMode : Mode) (mem : gmap Z (list Z)) (g : Globals)
  : Mode * gmap Z (list Z) * Globals * list (list Effect) :=
  match its with
  | [] => (currentMode, mem, g, [])
  | it :: its' =>
      let r := loop toInt (fst it) (snd it) currentMode mem g in
      let v := value_of r in
      let r' := run_loop toInt its' (fst (fst v)) (snd (fst v)) (globals_of r) in
      (fst r', log_of r :: snd r')
  end.

(** Two iterations read the same clock values and button pins; the
    answers of the reader may differ. *)
Definition same_but_reader (i i' : Tick) : Prop :=
  ms_loop i = ms_loop i' /\ ms_buttons i = ms_buttons i' /\
  pin_up i = pin_up i' /\ pin_down i = pin_down i' /\
  ms_grace i = ms_grace i'.

(** The tag of [tag7_present] is missed by one poll and seen again by
    the next, 400 ms after its last detection, but the page read of the
    returning tag fails. *)
Definition back_unreadable_ticks : list Tick :=
  [tick_at 1200 None None; tick_at 1400 (Some long_uid) None;
   tick_at 1600 (Some long_uid) song7_page].

(** Another tag, carrying song 12, replaces the tag of [tag7_present];
    it is lifted and the grace period runs out. *)
Definition swap_then_away_ticks : list Tick :=
  [tick_at 1300 (Some [9; 9; 9; 9]) (Some [chr_S; chr_O; chr_N; 12]);
   tick_at 1500 None None; tick_at 3400 None None].

(** * Proofs *)

Arguments usub : simpl never.
Arguments wrap_int : simpl never.
Arguments int_add : simpl never.
Arguments to_uint8 : simpl never.

(** Unfolds the firmware's functions down to the state and the log. *)
Ltac munfold :=
  unfold loop_play, handleGracePeriod, poll_tag, checkNFCTag, handleNewTag,
    readSongNumberFromTag, check_sample, press_up, press_down,
    checkVolumeButtons, volumeUpBlock, volumeDownBlock,
    adjustVolume, stopSong, playSong, setLED, emit, upd_state, upd_buttons,
    get_state, get_buttons, mbind, mret, M_bind, M_ret,
    globals_of, log_of, value_of in *.

(** Case analysis on the next test the program makes. *)
Ltac split_if :=
  match goal with
  | |- context [if ?c then _ else _] => destruct c eqn:?
  | |- context [match ?o with Some _ => _ | None => _ end] => destruct o eqn:?
  end; cbn in *.

(** Turns boolean tests in the context into arithmetic facts. *)
Ltac bool_facts :=
  repeat match goal with
  | H : _ && _ = true |- _ => apply andb_true_iff in H; destruct H
  | H : _ && _ = false |- _ => apply andb_false_iff in H; destruct H
  | H : _ || _ = true |- _ => apply orb_true_iff in H; destruct H
  | H : _ || _ = false |- _ => apply orb_false_iff in H; destruct H
  | H : negb _ = true |- _ => apply negb_true_iff in H
  | H : negb _ = false |- _ => apply negb_false_iff in H
  | H : (_ =? _) = true |- _ => apply Z.eqb_eq in H
  | H : (_ =? _) = false |- _ => apply Z.eqb_neq in H
  | H : (_ <? _) = true |- _ => apply Z.ltb_lt in H
  | H : (_ <? _) = false |- _ => apply Z.ltb_ge in H
  | H : (_ >? _) = true |- _ => apply Z.gtb_gt in H
  | H : (_ >? _) = false |- _ => rewrite Z.gtb_ltb in H; apply Z.ltb_ge in H
  | H : (_ >=? _) = true |- _ => rewrite Z.geb_leb in H; apply Z.leb_le in H
  | H : (_ >=? _) = false |- _ => rewrite Z.geb_leb in H; apply Z.leb_gt in H
  | H : (_ <=? _) = true |- _ => apply Z.leb_le in H
  | H : (_ <=? _) = false |- _ => apply Z.leb_gt in H
  end.

(** ** The monad *)

Lemma bind_run {A B} (m : M A) (k : A -> M B) (g : Globals) :
  (m ≫= k) g =
  let '(a, g1, log1) := m g in
  let '(b, g2, log2) := k a g1 in (b, g2, log1 ++ log2).
Proof. reflexivity. Qed.

Lemma count_app p (l1 l2 : list Effect) :
  count p (l1 ++ l2) = (count p l1 + count p l2)%nat.
Proof. induction l1 as [|e l1 IH]; cbn; [reflexivity | rewrite IH; lia]. Qed.

(** ** Playback control *)

Lemma stopSong_run g :
  stopSong g =
  if isSongPlaying (state g)
  then (tt, mkGlobals (set_currentTrack 0 (set_isSongPlaying false (state g)))
              (buttons g), [DfStop; LedWrite LOW])
  else (tt, g, []).
Proof. munfold. cbn. destruct (isSongPlaying (state g)); reflexivity. Qed.

Lemma playSong_run n g :
  playSong n g =
  (tt, mkGlobals (set_isSongPlaying true (set_currentTrack n (state g)))
         (buttons g), [DfPlay n; LedWrite HIGH]).
Proof. reflexivity. Qed.

(** ** The song record *)

Lemma readSongNumberFromTag_run page g :
  readSongNumberFromTag page g = (song_of page, g, [NfcReadPage 4]).
Proof.
  unfold song_of. munfold. cbn. repeat split_if; reflexivity.
Qed.

Lemma song_of_range page : song_of page = -1 \/ 1 <= song_of page <= 99.
Proof.
  unfold song_of. munfold. cbn. repeat split_if; bool_facts; auto; lia.
Qed.

Lemma song_of_bad page : bad_record page -> song_of page = -1.
Proof.
  unfold song_of, bad_record. intros Hbad. munfold. cbn.
  repeat split_if; bool_facts; try reflexivity.
  exfalso. destruct Hbad as [H' | H']; apply H'; auto; lia.
Qed.

Lemma song_of_record n :
  1 <= n <= 99 -> song_of (Some [chr_S; chr_O; chr_N; n]) = n.
Proof.
  intros Hn. unfold song_of. munfold. cbn.
  destruct (n >=? 1) eqn:E1; destruct (n <=? 99) eqn:E2; bool_facts;
    cbn; try reflexivity; lia.
Qed.

Lemma handleNewTag_run rawUID page g :
  handleNewTag rawUID page g =
  let n := song_of page in
  let s := state g in
  if n =? -1 then
    (if isSongPlaying s
     then (tt, mkGlobals (set_currentTrack 0 (set_isSongPlaying false s)) (buttons g),
           [NfcReadPage 4; DfStop; LedWrite LOW])
     else (tt, g, [NfcReadPage 4]))
  else if isSongPlaying s then
    (if currentTrack s =? n then (tt, g, [NfcReadPage 4])
     else (tt, mkGlobals (set_isSongPlaying true (set_currentTrack n
                 (set_currentTrack 0 (set_isSongPlaying false s)))) (buttons g),
           [NfcReadPage 4; DfStop; LedWrite LOW; DfPlay n; LedWrite HIGH]))
  else (tt, mkGlobals (set_isSongPlaying true (set_currentTrack n s)) (buttons g),
        [NfcReadPage 4; DfPlay n; LedWrite HIGH]).
Proof.
  unfold handleNewTag. rewrite bind_run, readSongNumberFromTag_run.
  cbv zeta. destruct (song_of page =? -1) eqn:En.
  - rewrite stopSong_run. destruct (isSongPlaying (state g)); reflexivity.
  - munfold. cbn.
    destruct (isSongPlaying (state g)) eqn:Ep; cbn;
      destruct (currentTrack (state g) =? song_of page) eqn:Et; cbn;
      rewrite ?Ep; cbn; try reflexivity.
Qed.

(** ** C4: the same tag put back while its track plays *)

(** C4.  Playback is active with current track [n] (a song index, 1..99)
    and the page read of the new tag decodes to the same [n]: then
    [handleNewTag] sends no stop and no play command (the only entry of
    its log is the page read itself) and leaves all globals, the
    playback state among them, as they were. *)
Theorem handleNewTag_same_track_noop :
  forall (g : Globals) (rawUID : list Z) (page : option (list Z)),
    isSongPlaying (state g) = true ->
    1 <= currentTrack (state g) <= 99 ->
    song_of page = currentTrack (state g) ->
    let r := handleNewTag rawUID page g in
    log_of r = [NfcReadPage 4] /\
    count is_stop (log_of r) = 0%nat /\
    count is_play (log_of r) = 0%nat /\
    globals_of r = g.
Proof.
  intros g rawUID page Hplay Hrange Hsong r. subst r.
  rewrite handleNewTag_run. cbv zeta.
  rewrite Hsong, Hplay, Z.eqb_refl.
  destruct (currentTrack (state g) =? -1) eqn:E; bool_facts; [lia|].
  cbn. auto.
Qed.

Lemma handleNewTag_same_track_noop_witness :
  let r := handleNewTag [4; 161; 178; 195] (Some [chr_S; chr_O; chr_N; 7]) playing7 in
  log_of r = [NfcReadPage 4] /\
  count is_stop (log_of r) = 0%nat /\
  count is_play (log_of r) = 0%nat /\
  globals_of r = playing7.
Proof.
  apply (handleNewTag_same_track_noop playing7 [4; 161; 178; 195]
           (Some [chr_S; chr_O; chr_N; 7])).
  - reflexivity.
  - cbn. lia.
  - reflexivity.
Defined.

(** ** C5: a tag without a valid song record *)

(** C5.  When the page read of a new tag fails or yields no valid record
    (wrong marker, or song number outside 1..99), [handleNewTag] never
    sends a play command.  If a song was playing it sends exactly one
    stop command (and switches the LED off) and clears the playback
    state; if none was playing it sends no command at all (its log holds
    the page read only) and leaves the globals unchanged. *)
Theorem handleNewTag_bad_record :
  forall (g : Globals) (rawUID : list Z) (page : option (list Z)),
    bad_record page ->
    let r := handleNewTag rawUID page g in
    count is_play (log_of r) = 0%nat /\
    count is_stop (log_of r) = (if isSongPlaying (state g) then 1 else 0)%nat /\
    (isSongPlaying (state g) = true ->
       log_of r = [NfcReadPage 4; DfStop; LedWrite LOW] /\
       isSongPlaying (state (globals_of r)) = false /\
       currentTrack (state (globals_of r)) = 0) /\
    (isSongPlaying (state g) = false ->
       log_of r = [NfcReadPage 4] /\ globals_of r = g).
Proof.
  intros g rawUID page Hbad r. subst r.
  rewrite handleNewTag_run. cbv zeta.
  rewrite (song_of_bad _ Hbad). cbn.
  destruct (isSongPlaying (state g)); cbn; repeat split; intros; congruence.
Qed.

Lemma handleNewTag_bad_record_witness :
  let r := handleNewTag [4; 161; 178; 195] (Some [0; 0; 0; 0]) playing7 in
  count is_play (log_of r) = 0%nat /\
  count is_stop (log_of r) = 1%nat /\
  (isSongPlaying (state playing7) = true ->
     log_of r = [NfcReadPage 4; DfStop; LedWrite LOW] /\
     isSongPlaying (state (globals_of r)) = false /\
     currentTrack (state (globals_of r)) = 0) /\
  (isSongPlaying (state playing7) = false ->
     log_of r = [NfcReadPage 4] /\ globals_of r = playing7).
Proof.
  apply (handleNewTag_bad_record playing7 [4; 161; 178; 195] (Some [0; 0; 0; 0])).
  cbn. left. intros [H _]. discriminate H.
Defined.

(** ** C8: the song record written and read back *)

Lemma writeSongNumber_run n detect mem :
  waitForTag detect 0 50 = true ->
  writeSongNumber n detect true mem =
  (<[4 := [chr_S; chr_O; chr_N; n]]> mem, [NfcWritePage 4 [chr_S; chr_O; chr_N; n]]).
Proof. intros Hd. unfold writeSongNumber. rewrite Hd. reflexivity. Qed.

(** C8.  For a song number [n] in 1..99: when a tag is presented within
    the 50 polling attempts and the page write and the later page read
    succeed, [writeSongNumber n] stores the page ['S';'O';'N';n] at
    page 4 and [readSongNumberFromTag] on that tag answers [n]. *)
Theorem song_record_round_trip :
  forall (n : Z) (detect : nat -> bool) (mem : gmap Z (list Z)) (g : Globals),
    1 <= n <= 99 ->
    waitForTag detect 0 50 = true ->
    let w := writeSongNumber n detect true mem in
    snd w = [NfcWritePage 4 [chr_S; chr_O; chr_N; n]] /\
    fst w !! 4 = Some [chr_S; chr_O; chr_N; n] /\
    value_of (readSongNumberFromTag (ntag2xx_ReadPage 4 true (fst w)) g) = n.
Proof.
  intros n detect mem g Hn Hd w. subst w.
  rewrite (writeSongNumber_run n detect mem Hd). cbn [fst snd].
  split; [reflexivity|].
  assert (Hl : (<[4 := [chr_S; chr_O; chr_N; n]]> mem : gmap Z (list Z)) !! 4
               = Some [chr_S; chr_O; chr_N; n]) by apply lookup_insert_eq.
  split; [exact Hl|].
  unfold ntag2xx_ReadPage. rewrite Hl, readSongNumberFromTag_run.
  unfold value_of. cbn [fst]. apply song_of_record, Hn.
Qed.

(** Song 7 written to an empty tag seen at the third attempt. *)
Lemma song_record_round_trip_witness :
  let w := writeSongNumber 7 (fun k => Nat.eqb k 2) true ∅ in
  snd w = [NfcWritePage 4 [chr_S; chr_O; chr_N; 7]] /\
  fst w !! 4 = Some [chr_S; chr_O; chr_N; 7] /\
  value_of (readSongNumberFromTag (ntag2xx_ReadPage 4 true (fst w)) globals_init) = 7.
Proof.
  apply (song_record_round_trip 7 (fun k => Nat.eqb k 2) ∅ globals_init).
  - lia.
  - reflexivity.
Defined.

(** ** Volume control *)

Lemma clamp_range z : volume_in_range (clamp z MIN_VOLUME MAX_VOLUME).
Proof.
  unfold volume_in_range, clamp, MIN_VOLUME, MAX_VOLUME.
  repeat split_if; bool_facts; lia.
Qed.

Lemma to_uint8_volume v : volume_in_range v -> to_uint8 v = v.
Proof.
  unfold volume_in_range, MIN_VOLUME, MAX_VOLUME, to_uint8. intros Hv.
  apply Z.mod_small. lia.
Qed.

Lemma int_add_exact a b : in_int (a + b) -> int_add a b = a + b.
Proof.
  unfold in_int, INT_MIN, INT_MAX, int_add, wrap_int. intros H.
  rewrite Z.mod_small; lia.
Qed.

Lemma adjustVolume_run delta g :
  adjustVolume delta g =
  let v := clamp (int_add (currentVolume (state g)) delta) MIN_VOLUME MAX_VOLUME in
  (tt, mkGlobals (set_currentVolume v (state g)) (buttons g), [DfVolume v]).
Proof.
  cbv zeta.
  rewrite <- (to_uint8_volume _ (clamp_range (int_add (currentVolume (state g)) delta))) at 2.
  unfold clamp. munfold. cbn.
  destruct (int_add (currentVolume (state g)) delta <? MIN_VOLUME) eqn:E1.
  - replace (MIN_VOLUME >? MAX_VOLUME) with false by reflexivity. reflexivity.
  - reflexivity.
Qed.

Lemma clamp_up v : volume_in_range v ->
  clamp (int_add v 1) MIN_VOLUME MAX_VOLUME = Z.min MAX_VOLUME (v + 1).
Proof.
  intros Hv. assert (Hv' := Hv).
  unfold volume_in_range, MIN_VOLUME, MAX_VOLUME in Hv'.
  rewrite int_add_exact by (unfold in_int, INT_MIN, INT_MAX; lia).
  unfold clamp, MIN_VOLUME, MAX_VOLUME. repeat split_if; bool_facts; lia.
Qed.

Lemma clamp_down v : volume_in_range v ->
  clamp (int_add v (-1)) MIN_VOLUME MAX_VOLUME = Z.max MIN_VOLUME (v - 1).
Proof.
  intros Hv. assert (Hv' := Hv).
  unfold volume_in_range, MIN_VOLUME, MAX_VOLUME in Hv'.
  rewrite int_add_exact by (unfold in_int, INT_MIN, INT_MAX; lia).
  unfold clamp, MIN_VOLUME, MAX_VOLUME. repeat split_if; bool_facts; lia.
Qed.




(** ** Button debouncing *)

(** The press test of one button: active now, not active at the sample
    before, and more than the debounce delay since the accepted press
    before. *)
Lemma volumeUpBlock_run now pressed g :
  volumeUpBlock now pressed g =
  let b := buttons g in
  if pressed && negb (lastUpState b) &&
     (usub now (lastUpPress b) >? BUTTON_DEBOUNCE_DELAY)
  then
    let v := clamp (int_add (currentVolume (state g)) 1) MIN_VOLUME MAX_VOLUME in
    (tt, mkGlobals (set_currentVolume v (state g))
           (set_lastUpState pressed (set_lastUpPress now b)), [DfVolume v])
  else (tt, mkGlobals (state g) (set_lastUpState pressed b), []).
Proof.
  unfold volumeUpBlock. rewrite bind_run. cbn -[adjustVolume].
  destruct (pressed && negb (lastUpState (buttons g)) &&
            (usub now (lastUpPress (buttons g)) >? BUTTON_DEBOUNCE_DELAY)).
  - rewrite !bind_run, adjustVolume_run. reflexivity.
  - reflexivity.
Qed.

Lemma volumeDownBlock_run now pressed g :
  volumeDownBlock now pressed g =
  let b := buttons g in
  if pressed && negb (lastDownState b) &&
     (usub now (lastDownPress b) >? BUTTON_DEBOUNCE_DELAY)
  then
    let v := clamp (int_add (currentVolume (state g)) (-1)) MIN_VOLUME MAX_VOLUME in
    (tt, mkGlobals (set_currentVolume v (state g))
           (set_lastDownState pressed (set_lastDownPress now b)), [DfVolume v])
  else (tt, mkGlobals (state g) (set_lastDownState pressed b), []).
Proof.
  unfold volumeDownBlock. rewrite bind_run. cbn -[adjustVolume].
  destruct (pressed && negb (lastDownState (buttons g)) &&
            (usub now (lastDownPress (buttons g)) >? BUTTON_DEBOUNCE_DELAY)).
  - rewrite !bind_run, adjustVolume_run. reflexivity.
  - reflexivity.
Qed.

Lemma checkVolumeButtons_run now pinUp pinDown g :
  checkVolumeButtons now pinUp pinDown g =
  let '(_, g1, log1) := volumeUpBlock now (Bool.eqb pinUp LOW) g in
  let '(_, g2, log2) := volumeDownBlock now (Bool.eqb pinDown LOW) g1 in
  (tt, g2, log1 ++ log2).
Proof.
  unfold checkVolumeButtons. rewrite bind_run.
  destruct (volumeUpBlock now (Bool.eqb pinUp LOW) g) as [[[] g1] l1].
  destruct (volumeDownBlock now (Bool.eqb pinDown LOW) g1) as [[[] g2] l2].
  reflexivity.
Qed.

(** The buttons change the volume only and send volume commands only. *)
Lemma checkVolumeButtons_frame now pinUp pinDown g :
  let r := checkVolumeButtons now pinUp pinDown g in
  (exists v, state (globals_of r) = set_currentVolume v (state g)) /\
  count is_stop (log_of r) = 0%nat /\
  count is_play (log_of r) = 0%nat /\
  count is_read_page (log_of r) = 0%nat.
Proof.
  cbv zeta. rewrite checkVolumeButtons_run, volumeUpBlock_run. cbv zeta.
  destruct g as [s b]. destruct s. cbn [state buttons].
  split_if; rewrite volumeDownBlock_run; cbv zeta; cbn [state buttons];
    split_if; cbn; (split; [eexists; reflexivity | auto]).
Qed.

(** A sample with the "up" pin released and the "down" pin released
    records the release and does nothing else. *)
Lemma release_run now g :
  checkVolumeButtons now HIGH HIGH g =
  (tt, mkGlobals (state g)
         (set_lastDownState false (set_lastUpState false (buttons g))), []).
Proof.
  rewrite checkVolumeButtons_run, volumeUpBlock_run. cbn.
  rewrite volumeDownBlock_run. reflexivity.
Qed.

Lemma press_up_run p g :
  usub (snd p) (lastUpPress (buttons g)) > BUTTON_DEBOUNCE_DELAY ->
  press_up p g =
  let v := clamp (int_add (currentVolume (state g)) 1) MIN_VOLUME MAX_VOLUME in
  (tt, mkGlobals (set_currentVolume v (state g))
         (mkButtonState true false (snd p) (lastDownPress (buttons g))),
   [DfVolume v]).
Proof.
  intros Hgap. apply Z.gtb_gt in Hgap.
  unfold press_up. rewrite bind_run, release_run.
  rewrite checkVolumeButtons_run, volumeUpBlock_run. cbn. rewrite Hgap.
  rewrite volumeDownBlock_run. reflexivity.
Qed.

Lemma press_down_run p g :
  usub (snd p) (lastDownPress (buttons g)) > BUTTON_DEBOUNCE_DELAY ->
  press_down p g =
  let v := clamp (int_add (currentVolume (state g)) (-1)) MIN_VOLUME MAX_VOLUME in
  (tt, mkGlobals (set_currentVolume v (state g))
         (mkButtonState false true (lastUpPress (buttons g)) (snd p)),
   [DfVolume v]).
Proof.
  intros Hgap. apply Z.gtb_gt in Hgap.
  unfold press_down. rewrite bind_run, release_run.
  rewrite checkVolumeButtons_run, volumeUpBlock_run. cbn.
  rewrite volumeDownBlock_run. cbn. rewrite Hgap. reflexivity.
Qed.

Lemma volume_commands_cons f n :
  volume_commands f (S n) =
  DfVolume (f 1) :: volume_commands (fun j => f (j + 1)) n.
Proof.
  unfold volume_commands. cbn [seq map]. f_equal.
  rewrite <- seq_shift, map_map. apply map_ext. intros j.
  do 2 f_equal. lia.
Qed.

Lemma presses_up_run ps : forall g,
  volume_in_range (currentVolume (state g)) ->
  spaced (lastUpPress (buttons g)) ps ->
  let r := mseq (map press_up ps) g in
  currentVolume (state (globals_of r)) =
    Z.min MAX_VOLUME (currentVolume (state g) + Z.of_nat (length ps)) /\
  log_of r =
    volume_commands (fun j => Z.min MAX_VOLUME (currentVolume (state g) + j))
      (length ps).
Proof.
  induction ps as [|p ps IH]; intros g Hv Hsp; cbv zeta.
  - cbn. unfold volume_in_range, MIN_VOLUME, MAX_VOLUME in *. split; [lia | reflexivity].
  - destruct Hsp as [Hgap Hsp]. cbn [map mseq length].
    rewrite bind_run, (press_up_run p g Hgap). cbv zeta.
    rewrite (clamp_up _ Hv).
    set (g1 := mkGlobals _ _).
    assert (Hv1 : volume_in_range (currentVolume (state g1))).
    { cbn. unfold volume_in_range, MIN_VOLUME, MAX_VOLUME in *. lia. }
    specialize (IH g1 Hv1 Hsp). cbv zeta in IH.
    destruct (mseq (map press_up ps) g1) as [[[] g2] l2].
    unfold globals_of, log_of in *. cbn [fst snd] in *.
    destruct IH as [IHv IHl]. rewrite IHv, IHl. cbn [state currentVolume set_currentVolume g1].
    rewrite volume_commands_cons.
    unfold volume_in_range, MIN_VOLUME, MAX_VOLUME in *.
    split; [lia|]. cbn [app]. f_equal.
    unfold volume_commands. apply map_ext. intros j. f_equal. lia.
Qed.

Lemma presses_down_run ps : forall g,
  volume_in_range (currentVolume (state g)) ->
  spaced (lastDownPress (buttons g)) ps ->
  let r := mseq (map press_down ps) g in
  currentVolume (state (globals_of r)) =
    Z.max MIN_VOLUME (currentVolume (state g) - Z.of_nat (length ps)) /\
  log_of r =
    volume_commands (fun j => Z.max MIN_VOLUME (currentVolume (state g) - j))
      (length ps).
Proof.
  induction ps as [|p ps IH]; intros g Hv Hsp; cbv zeta.
  - cbn. unfold volume_in_range, MIN_VOLUME, MAX_VOLUME in *. split; [lia | reflexivity].
  - destruct Hsp as [Hgap Hsp]. cbn [map mseq length].
    rewrite bind_run, (press_down_run p g Hgap). cbv zeta.
    rewrite (clamp_down _ Hv).
    set (g1 := mkGlobals _ _).
    assert (Hv1 : volume_in_range (currentVolume (state g1))).
    { cbn. unfold volume_in_range, MIN_VOLUME, MAX_VOLUME in *. lia. }
    specialize (IH g1 Hv1 Hsp). cbv zeta in IH.
    destruct (mseq (map press_down ps) g1) as [[[] g2] l2].
    unfold globals_of, log_of in *. cbn [fst snd] in *.
    destruct IH as [IHv IHl]. rewrite IHv, IHl. cbn [state currentVolume set_currentVolume g1].
    rewrite volume_commands_cons.
    unfold volume_in_range, MIN_VOLUME, MAX_VOLUME in *.
    split; [lia|]. cbn [app]. f_equal.
    unfold volume_commands. apply map_ext. intros j. f_equal. lia.
Qed.

(** ** C3: presses at the ends of the volume range *)

(** C3, as the code has it.  From a level [v] in 0..30, [n] accepted
    "up" presses (each more than 200 ms after the one before) leave the
    level at [min 30 (v + n)], and every one of them, also those made
    after the level has reached 30, sends exactly one volume command
    carrying the clamped level; so from 20, 15 presses end at 30 and the
    last five commands are volume 30.  Symmetrically, accepted "down"
    presses leave the level at [max 0 (v - n)] and each sends one
    command with the clamped level: at 0 the level stays 0. *)
Theorem volume_presses_clamp :
  (forall (g : Globals) (ps : list (Z * Z)),
     volume_in_range (currentVolume (state g)) ->
     spaced (lastUpPress (buttons g)) ps ->
     let r := mseq (map press_up ps) g in
     currentVolume (state (globals_of r)) =
       Z.min MAX_VOLUME (currentVolume (state g) + Z.of_nat (length ps)) /\
     log_of r =
       volume_commands (fun j => Z.min MAX_VOLUME (currentVolume (state g) + j))
         (length ps)) /\
  (forall (g : Globals) (ps : list (Z * Z)),
     volume_in_range (currentVolume (state g)) ->
     spaced (lastDownPress (buttons g)) ps ->
     let r := mseq (map press_down ps) g in
     currentVolume (state (globals_of r)) =
       Z.max MIN_VOLUME (currentVolume (state g) - Z.of_nat (length ps)) /\
     log_of r =
       volume_commands (fun j => Z.max MIN_VOLUME (currentVolume (state g) - j))
         (length ps)).
Proof.
  split; intros g ps Hv Hsp.
  - apply presses_up_run; assumption.
  - apply presses_down_run; assumption.
Qed.

Lemma fifteen_presses_spaced : spaced 0 fifteen_presses.
Proof.
  unfold fifteen_presses, press_times. cbn.
  unfold usub, ULONG_MOD, BUTTON_DEBOUNCE_DELAY. cbn. repeat split; lia.
Defined.

Lemma volume_presses_clamp_witness :
  let r := mseq (map press_up fifteen_presses) globals_init in
  currentVolume (state (globals_of r)) = 30 /\
  log_of r =
    volume_commands (fun j => Z.min MAX_VOLUME (DEFAULT_VOLUME + j)) 15.
Proof.
  destruct volume_presses_clamp as [Hup _].
  apply (Hup globals_init fifteen_presses).
  - unfold volume_in_range, MIN_VOLUME, MAX_VOLUME. cbn. unfold DEFAULT_VOLUME. lia.
  - exact fifteen_presses_spaced.
Defined.

(** C3 as stated fails: of 15 accepted "up" presses from level 20, the
    first ten bring the level to 30 and each of the last five still
    sends a volume command. *)
Lemma volume_presses_counterexample :
  spaced 0 fifteen_presses /\
  length fifteen_presses = 15%nat /\
  let r10 := mseq (map press_up (take 10 fifteen_presses)) globals_init in
  let r := mseq (map press_up (drop 10 fifteen_presses)) (globals_of r10) in
  currentVolume (state (globals_of r10)) = 30 /\
  currentVolume (state (globals_of r)) = 30 /\
  log_of r = [DfVolume 30; DfVolume 30; DfVolume 30; DfVolume 30; DfVolume 30] /\
  count is_volume (log_of r) = 5%nat.
Proof.
  split; [exact fifteen_presses_spaced|]. split; [reflexivity|].
  vm_compute. repeat split; reflexivity.
Qed.

(** ** C6: one press event per debounce window *)

Lemma check_sample_up_quiet x g :
  sample_down x = HIGH ->
  usub (sample_ms x) (lastUpPress (buttons g)) <= BUTTON_DEBOUNCE_DELAY ->
  check_sample x g =
  (tt, mkGlobals (state g)
         (set_lastDownState false
            (set_lastUpState (Bool.eqb (sample_up x) LOW) (buttons g))), []).
Proof.
  intros Hd Hgap. unfold check_sample.
  rewrite checkVolumeButtons_run, volumeUpBlock_run. cbv zeta.
  assert (Hno : (usub (sample_ms x) (lastUpPress (buttons g))
                 >? BUTTON_DEBOUNCE_DELAY) = false).
  { rewrite Z.gtb_ltb. apply Z.ltb_ge. exact Hgap. }
  rewrite Hno, andb_false_r, volumeDownBlock_run, Hd. reflexivity.
Qed.

Lemma check_sample_down_quiet x g :
  sample_up x = HIGH ->
  usub (sample_ms x) (lastDownPress (buttons g)) <= BUTTON_DEBOUNCE_DELAY ->
  check_sample x g =
  (tt, mkGlobals (state g)
         (set_lastDownState (Bool.eqb (sample_down x) LOW)
            (set_lastUpState false (buttons g))), []).
Proof.
  intros Hu Hgap. unfold check_sample.
  rewrite checkVolumeButtons_run, volumeUpBlock_run, Hu. cbn.
  rewrite volumeDownBlock_run. cbv zeta.
  assert (Hno : (usub (sample_ms x) (lastDownPress (buttons g))
                 >? BUTTON_DEBOUNCE_DELAY) = false).
  { rewrite Z.gtb_ltb. apply Z.ltb_ge. exact Hgap. }
  cbn. rewrite Hno, andb_false_r. reflexivity.
Qed.

Lemma samples_after_up_press t1 samples : forall g,
  lastUpPress (buttons g) = t1 ->
  Forall (fun x => sample_down x = HIGH /\
                   usub (sample_ms x) t1 <= BUTTON_DEBOUNCE_DELAY) samples ->
  let r := mseq (map check_sample samples) g in
  log_of r = [] /\ lastUpPress (buttons (globals_of r)) = t1.
Proof.
  induction samples as [|x xs IH]; intros g Ht Hall; cbv zeta.
  - cbn. auto.
  - inversion Hall as [|? ? [Hd Hgap] Hall']; subst.
    cbn [map mseq]. rewrite bind_run, (check_sample_up_quiet x g Hd Hgap).
    set (g1 := mkGlobals _ _).
    specialize (IH g1 eq_refl Hall'). cbv zeta in IH.
    destruct (mseq (map check_sample xs) g1) as [[[] g2] l2].
    unfold globals_of, log_of in *. cbn [fst snd app] in *. exact IH.
Qed.

Lemma samples_after_down_press t1 samples : forall g,
  lastDownPress (buttons g) = t1 ->
  Forall (fun x => sample_up x = HIGH /\
                   usub (sample_ms x) t1 <= BUTTON_DEBOUNCE_DELAY) samples ->
  let r := mseq (map check_sample samples) g in
  log_of r = [] /\ lastDownPress (buttons (globals_of r)) = t1.
Proof.
  induction samples as [|x xs IH]; intros g Ht Hall; cbv zeta.
  - cbn. auto.
  - inversion Hall as [|? ? [Hu Hgap] Hall']; subst.
    cbn [map mseq]. rewrite bind_run, (check_sample_down_quiet x g Hu Hgap).
    set (g1 := mkGlobals _ _).
    specialize (IH g1 eq_refl Hall'). cbv zeta in IH.
    destruct (mseq (map check_sample xs) g1) as [[[] g2] l2].
    unfold globals_of, log_of in *. cbn [fst snd app] in *. exact IH.
Qed.

Lemma press_event_test activeNow activeBefore now lastAccepted :
  press_event activeNow activeBefore now lastAccepted <->
  activeNow && negb activeBefore &&
    (usub now lastAccepted >? BUTTON_DEBOUNCE_DELAY) = true.
Proof.
  unfold press_event.
  rewrite !andb_true_iff, negb_true_iff, Z.gtb_gt. tauto.
Qed.

(** C6.  On every call of [checkVolumeButtons] the log is the log of the
    "up" button followed by the log of the "down" button, and for each
    button on its own: a press is accepted (one volume command, the
    press time stored) exactly when the sample is active, the stored
    sample before was not, and more than 200 ms have passed since the
    accepted press stored for that button, all three read from the state
    before the call; otherwise nothing is sent and the press time is
    kept.  The stored level becomes the current sample on every call.
    Consequently, after an accepted press at [t1], samples taken within
    200 ms of [t1] yield no further press, whatever edges they show: two
    falling edges within 200 ms give exactly one accepted press. *)
Theorem debounce_press_event :
  (forall (g : Globals) (now : Z) (pinUp pinDown : bool),
     let b := buttons g in
     let r := checkVolumeButtons now pinUp pinDown g in
     let b' := buttons (globals_of r) in
     exists upLog downLog : list Effect,
       log_of r = upLog ++ downLog /\
       (press_event (Bool.eqb pinUp LOW) (lastUpState b) now (lastUpPress b) ->
          (exists v, upLog = [DfVolume v]) /\ lastUpPress b' = now) /\
       (~ press_event (Bool.eqb pinUp LOW) (lastUpState b) now (lastUpPress b) ->
          upLog = [] /\ lastUpPress b' = lastUpPress b) /\
       (press_event (Bool.eqb pinDown LOW) (lastDownState b) now (lastDownPress b) ->
          (exists v, downLog = [DfVolume v]) /\ lastDownPress b' = now) /\
       (~ press_event (Bool.eqb pinDown LOW) (lastDownState b) now (lastDownPress b) ->
          downLog = [] /\ lastDownPress b' = lastDownPress b) /\
       lastUpState b' = Bool.eqb pinUp LOW /\
       lastDownState b' = Bool.eqb pinDown LOW) /\
  (forall (g : Globals) (t1 : Z) (samples : list Sample),
     press_event true (lastUpState (buttons g)) t1 (lastUpPress (buttons g)) ->
     Forall (fun x => sample_down x = HIGH /\
                      usub (sample_ms x) t1 <= BUTTON_DEBOUNCE_DELAY) samples ->
     count is_volume
       (log_of ((checkVolumeButtons t1 LOW HIGH;;
                 mseq (map check_sample samples)) g)) = 1%nat) /\
  (forall (g : Globals) (t1 : Z) (samples : list Sample),
     press_event true (lastDownState (buttons g)) t1 (lastDownPress (buttons g)) ->
     Forall (fun x => sample_up x = HIGH /\
                      usub (sample_ms x) t1 <= BUTTON_DEBOUNCE_DELAY) samples ->
     count is_volume
       (log_of ((checkVolumeButtons t1 HIGH LOW;;
                 mseq (map check_sample samples)) g)) = 1%nat).
Proof.
  split; [|split].
  - intros g now pinUp pinDown b r b'. subst b r b'.
    rewrite checkVolumeButtons_run.
    pose proof (volumeUpBlock_run now (Bool.eqb pinUp LOW) g) as Hu.
    destruct (volumeUpBlock now (Bool.eqb pinUp LOW) g) as [[[] g1] l1].
    pose proof (volumeDownBlock_run now (Bool.eqb pinDown LOW) g1) as Hd.
    destruct (volumeDownBlock now (Bool.eqb pinDown LOW) g1) as [[[] g2] l2].
    exists l1, l2. cbv zeta in Hu, Hd.
    destruct (Bool.eqb pinUp LOW && negb (lastUpState (buttons g)) &&
              (usub now (lastUpPress (buttons g)) >? BUTTON_DEBOUNCE_DELAY)) eqn:Eu;
      injection Hu as -> ->; cbn in Hd;
      destruct (Bool.eqb pinDown LOW && negb (lastDownState (buttons g)) &&
                (usub now (lastDownPress (buttons g)) >? BUTTON_DEBOUNCE_DELAY)) eqn:Ed;
      injection Hd as -> ->;
      unfold globals_of, log_of; cbn;
      (split; [reflexivity|]);
      repeat match goal with
      | |- _ /\ _ => split
      | |- press_event _ _ _ _ -> _ =>
          let H := fresh in intros H; apply press_event_test in H
      | |- ~ press_event _ _ _ _ -> _ =>
          let H := fresh in intros H; rewrite press_event_test in H
      end; try congruence; eauto.
  - intros g t1 samples Hev Hall.
    destruct Hev as [_ [Hlast Hgap]]. apply Z.gtb_gt in Hgap.
    rewrite bind_run, checkVolumeButtons_run, volumeUpBlock_run. cbv zeta.
    cbn. rewrite Hlast, Hgap. cbn. rewrite volumeDownBlock_run. cbn.
    set (g1 := mkGlobals _ _).
    destruct (samples_after_up_press t1 samples g1 eq_refl Hall) as [Hlog _].
    destruct (mseq (map check_sample samples) g1) as [[[] g2] l2].
    unfold log_of in *. cbn in *. rewrite Hlog. reflexivity.
  - intros g t1 samples Hev Hall.
    destruct Hev as [_ [Hlast Hgap]]. apply Z.gtb_gt in Hgap.
    rewrite bind_run, checkVolumeButtons_run, volumeUpBlock_run. cbv zeta.
    cbn. rewrite volumeDownBlock_run. cbn. rewrite Hlast, Hgap. cbn.
    set (g1 := mkGlobals _ _).
    destruct (samples_after_down_press t1 samples g1 eq_refl Hall) as [Hlog _].
    destruct (mseq (map check_sample samples) g1) as [[[] g2] l2].
    unfold log_of in *. cbn in *. rewrite Hlog. reflexivity.
Qed.

(** A press at 1000 ms, a release at 1050 ms and a second falling edge
    at 1100 ms: one accepted press. *)
Lemma debounce_press_event_witness :
  count is_volume
    (log_of ((checkVolumeButtons 1000 LOW HIGH;;
              mseq (map check_sample (bounce_samples 1000))) after_release))
  = 1%nat.
Proof.
  destruct debounce_press_event as [_ [Hup _]].
  apply (Hup after_release 1000 (bounce_samples 1000)).
  - unfold press_event, usub, ULONG_MOD, BUTTON_DEBOUNCE_DELAY. cbn.
    repeat split; lia.
  - unfold bounce_samples, usub, ULONG_MOD, BUTTON_DEBOUNCE_DELAY.
    constructor; [split; [reflexivity | apply Z.leb_le; reflexivity]|].
    constructor; [split; [reflexivity | apply Z.leb_le; reflexivity]|].
    constructor.
Defined.

(** ** Tag identity *)

Lemma uidsMatch_from_spec uid1 uid2 fuel : forall i,
  uidsMatch_from uid1 uid2 i fuel = true <->
  (forall k, (i <= k < i + fuel)%nat -> nth k uid1 0 = nth k uid2 0).
Proof.
  induction fuel as [|fuel IH]; intros i; cbn [uidsMatch_from].
  - split; [intros _ k Hk; lia | reflexivity].
  - destruct (nth i uid1 0 =? nth i uid2 0) eqn:E; cbn [negb]; bool_facts.
    + rewrite IH. split; intros H k Hk.
      * destruct (Nat.eq_dec k i) as [-> | Hne]; [exact E | apply H; lia].
      * apply H. lia.
    + split; [discriminate|]. intros H. exfalso. apply E, H. lia.
Qed.

(** The code compares the first [n] bytes of the two buffers. *)
Lemma uidsMatch_prefix uid1 uid2 n :
  (n <= length uid1)%nat -> (n <= length uid2)%nat ->
  (uidsMatch uid1 uid2 n = true <-> take n uid1 = take n uid2).
Proof.
  intros H1 H2. unfold uidsMatch. rewrite uidsMatch_from_spec. split.
  - intros H. apply (nth_ext _ _ 0 0).
    + rewrite !length_take. lia.
    + intros k Hk. rewrite length_take in Hk.
      rewrite <- (firstn_skipn n uid1) in H. rewrite <- (firstn_skipn n uid2) in H.
      specialize (H k ltac:(lia)).
      rewrite !app_nth1 in H by (rewrite length_take; lia). exact H.
  - intros H k Hk.
    rewrite <- (firstn_skipn n uid1), <- (firstn_skipn n uid2).
    rewrite !app_nth1 by (rewrite length_take; lia).
    change (firstn n uid1) with (take n uid1).
    change (firstn n uid2) with (take n uid2). rewrite H. reflexivity.
Qed.

Lemma uidsMatch_stored uid rest : uidsMatch uid (uid ++ rest) (length uid) = true.
Proof.
  unfold uidsMatch. apply uidsMatch_from_spec. intros k Hk.
  rewrite app_nth1 by lia. reflexivity.
Qed.

(** ** Polling the reader *)

Lemma checkNFCTag_none_run now page g :
  checkNFCTag None now page g =
  if isTagPresent (state g)
  then (tt, mkGlobals (set_isTagPresent false (state g)) (buttons g), [])
  else (tt, g, []).
Proof.
  munfold. cbn. destruct (isTagPresent (state g)); reflexivity.
Qed.

Lemma checkNFCTag_same_run uid now page g :
  isNewTag uid (state g) = false ->
  checkNFCTag (Some uid) now page g =
  (tt, mkGlobals (set_isTagPresent true (set_lastTagDetectionTime now (state g)))
         (buttons g), []).
Proof.
  intros Hnew. unfold checkNFCTag.
  do 2 (rewrite bind_run; cbn -[handleNewTag isNewTag]).
  change (isNewTag uid (set_lastTagDetectionTime now (state g)))
    with (isNewTag uid (state g)).
  rewrite Hnew. reflexivity.
Qed.

Lemma checkNFCTag_new_run uid now page g :
  isNewTag uid (state g) = true ->
  checkNFCTag (Some uid) now page g =
  let g1 := mkGlobals (set_lastTagDetectionTime now (state g)) (buttons g) in
  let '(_, g2, log) := handleNewTag uid page g1 in
  (tt, mkGlobals
         (set_isTagPresent true
            (set_lastUIDLength (Z.of_nat (length uid))
               (set_lastUID (uid ++ drop (length uid) (lastUID (state g2)))
                  (state g2))))
         (buttons g2), log).
Proof.
  intros Hnew. unfold checkNFCTag.
  do 2 (rewrite bind_run; cbn -[handleNewTag isNewTag]).
  change (isNewTag uid (set_lastTagDetectionTime now (state g)))
    with (isNewTag uid (state g)).
  rewrite Hnew. cbv zeta.
  do 2 (rewrite bind_run; cbn -[handleNewTag isNewTag]).
  destruct (handleNewTag uid page _) as [[[] g2] l2].
  repeat (rewrite bind_run; cbn). cbn.
  rewrite ?app_nil_r. reflexivity.
Qed.

Lemma handleGracePeriod_run now g :
  handleGracePeriod now g =
  let s := state g in
  if negb (isTagPresent s) && isSongPlaying s &&
     (usub now (lastTagDetectionTime s) >? TAG_GRACE_PERIOD)
  then (tt, mkGlobals (set_currentTrack 0 (set_isSongPlaying false s)) (buttons g),
        [DfStop; LedWrite LOW])
  else (tt, g, []).
Proof.
  unfold handleGracePeriod. rewrite bind_run. cbn -[stopSong]. cbv zeta.
  destruct (isTagPresent (state g)); cbn -[stopSong]; [reflexivity|].
  destruct (isSongPlaying (state g)) eqn:Ep; cbn -[stopSong]; [|reflexivity].
  destruct (usub now (lastTagDetectionTime (state g)) >? TAG_GRACE_PERIOD);
    [|reflexivity].
  rewrite stopSong_run, Ep. reflexivity.
Qed.

(** What [handleNewTag] leaves untouched, and how many commands it sends. *)
Lemma handleNewTag_frame rawUID page g :
  let r := handleNewTag rawUID page g in
  let s := state g in
  let s' := state (globals_of r) in
  buttons (globals_of r) = buttons g /\
  s' = set_currentTrack (currentTrack s') (set_isSongPlaying (isSongPlaying s') s) /\
  count is_read_page (log_of r) = 1%nat /\
  (count is_stop (log_of r) <= 1)%nat /\
  (playback_inv s -> playback_inv s').
Proof.
  cbv zeta. rewrite handleNewTag_run. cbv zeta.
  pose proof (song_of_range page) as Hr.
  destruct g as [s b]. destruct s. unfold playback_inv.
  cbn [state buttons isSongPlaying currentTrack].
  repeat split_if; bool_facts; unfold globals_of, log_of; cbn;
    repeat split; auto; try lia; try congruence; intros; try lia; try tauto.
Qed.

Lemma checkNFCTag_detect_present uid now page g :
  isTagPresent (state (globals_of (checkNFCTag (Some uid) now page g))) = true.
Proof.
  destruct (isNewTag uid (state g)) eqn:Hnew.
  - rewrite (checkNFCTag_new_run uid now page g Hnew). cbv zeta.
    destruct (handleNewTag uid page _) as [[[] g2] l2]. reflexivity.
  - rewrite (checkNFCTag_same_run uid now page g Hnew). reflexivity.
Qed.

(** ** One iteration of the loop *)

Lemma loop_play_run i g :
  loop_play i g =
  let '(_, g1, log1) :=
    checkVolumeButtons (ms_buttons i) (pin_up i) (pin_down i) g in
  let '(_, g2, log2) :=
    if poll_due (ms_loop i) (state g1) then
      let '(_, g', log) := checkNFCTag (nfc_target i) (ms_detect i) (nfc_page i) g1 in
      (tt, mkGlobals (set_lastNFCCheckTime (ms_loop i) (state g')) (buttons g'), log)
    else (tt, g1, []) in
  let '(_, g3, log3) := handleGracePeriod (ms_grace i) g2 in
  (tt, g3, log1 ++ log2 ++ log3).
Proof.
  unfold loop_play. rewrite bind_run.
  destruct (checkVolumeButtons _ _ _ g) as [[[] g1] l1].
  rewrite bind_run. cbn -[checkNFCTag handleGracePeriod poll_due].
  rewrite bind_run.
  destruct (poll_due (ms_loop i) (state g1)).
  - rewrite bind_run.
    destruct (checkNFCTag _ _ _ g1) as [[[] g'] l']. cbn -[handleGracePeriod].
    destruct (handleGracePeriod _ _) as [[[] g3] l3]. rewrite app_nil_r. reflexivity.
  - cbn -[handleGracePeriod].
    destruct (handleGracePeriod _ _) as [[[] g3] l3]. reflexivity.
Qed.

(** An iteration in which the reader sees no tag. *)
Lemma loop_play_no_tag i g :
  nfc_target i = None ->
  let r := loop_play i g in
  let s := state g in
  let s' := state (globals_of r) in
  let present' := isTagPresent s && negb (poll_due (ms_loop i) s) in
  let fires := negb present' && isSongPlaying s &&
               (elapsed g i >? TAG_GRACE_PERIOD) in
  isTagPresent s' = present' /\
  lastTagDetectionTime s' = lastTagDetectionTime s /\
  lastNFCCheckTime s' =
    (if poll_due (ms_loop i) s then ms_loop i else lastNFCCheckTime s) /\
  isSongPlaying s' = isSongPlaying s && negb fires /\
  currentTrack s' = (if fires then 0 else currentTrack s) /\
  count is_stop (log_of r) = (if fires then 1 else 0)%nat /\
  count is_play (log_of r) = 0%nat /\
  count is_read_page (log_of r) = 0%nat.
Proof.
  intros Hnone. cbv zeta. rewrite loop_play_run. unfold elapsed.
  pose proof (checkVolumeButtons_frame (ms_buttons i) (pin_up i) (pin_down i) g) as Hb.
  cbv zeta in Hb.
  destruct (checkVolumeButtons _ _ _ g) as [[[] g1] l1].
  unfold globals_of, log_of in *. cbn [fst snd] in *.
  destruct Hb as ([v Hs] & Hc1 & Hc2 & Hc3).
  destruct g1 as [s1 b1]. cbn [state buttons] in *. subst s1.
  rewrite Hnone, checkNFCTag_none_run.
  unfold poll_due. cbn [state buttons lastNFCCheckTime set_currentVolume isTagPresent].
  destruct g as [s b]. destruct s. cbn [state buttons lastNFCCheckTime isTagPresent
    lastTagDetectionTime isSongPlaying currentTrack] in *.
  destruct isTagPresent0, isSongPlaying0;
    destruct (usub (ms_loop i) lastNFCCheckTime0 >=? NFC_CHECK_INTERVAL) eqn:Ep;
    destruct (usub (ms_grace i) lastTagDetectionTime0 >? TAG_GRACE_PERIOD) eqn:Eg;
    cbn; rewrite ?handleGracePeriod_run; cbn; rewrite ?Eg; cbn;
    rewrite ?count_app, ?Hc1, ?Hc2, ?Hc3; cbn;
    repeat split; reflexivity.
Qed.

Lemma handleNewTag_same_track rawUID page g :
  isSongPlaying (state g) = true ->
  1 <= currentTrack (state g) <= 99 ->
  song_of page = currentTrack (state g) ->
  handleNewTag rawUID page g = (tt, g, [NfcReadPage 4]).
Proof.
  intros Hplay Hrange Hsong.
  rewrite handleNewTag_run. cbv zeta.
  rewrite Hsong, Hplay, Z.eqb_refl.
  destruct (currentTrack (state g) =? -1) eqn:E; bool_facts; [lia | reflexivity].
Qed.

(** An iteration in which the reader sees the tag it already holds. *)
Lemma loop_play_tag_stays i g uid :
  nfc_target i = Some uid ->
  isTagPresent (state g) = true ->
  uidsMatch uid (lastUID (state g)) (length uid) = true ->
  let r := loop_play i g in
  let s := state g in
  let s' := state (globals_of r) in
  isTagPresent s' = true /\
  lastUID s' = lastUID s /\
  isSongPlaying s' = isSongPlaying s /\
  currentTrack s' = currentTrack s /\
  count is_stop (log_of r) = 0%nat /\
  count is_play (log_of r) = 0%nat /\
  count is_read_page (log_of r) = 0%nat.
Proof.
  intros Htag Hpres Hmatch. cbv zeta. rewrite loop_play_run.
  pose proof (checkVolumeButtons_frame (ms_buttons i) (pin_up i) (pin_down i) g) as Hb.
  cbv zeta in Hb.
  destruct (checkVolumeButtons _ _ _ g) as [[[] g1] l1].
  unfold globals_of, log_of in *. cbn [fst snd] in *.
  destruct Hb as ([v Hs] & Hc1 & Hc2 & Hc3).
  assert (Hnew : isNewTag uid (state g1) = false).
  { rewrite Hs. unfold isNewTag. cbn. rewrite Hpres, Hmatch. reflexivity. }
  rewrite Htag, (checkNFCTag_same_run uid _ _ g1 Hnew).
  destruct g1 as [s1 b1]. cbn [state buttons] in *. subst s1.
  destruct (poll_due (ms_loop i) _);
    rewrite handleGracePeriod_run; cbn; rewrite ?Hpres; cbn;
    rewrite ?count_app, ?Hc1, ?Hc2, ?Hc3; cbn; repeat split; auto.
Qed.

(** An iteration whose poll finds a tag that carries the playing track. *)
Lemma loop_play_tag_back i g uid :
  nfc_target i = Some uid ->
  poll_due (ms_loop i) (state g) = true ->
  isSongPlaying (state g) = true ->
  1 <= currentTrack (state g) <= 99 ->
  song_of (nfc_page i) = currentTrack (state g) ->
  let r := loop_play i g in
  let s' := state (globals_of r) in
  isTagPresent s' = true /\
  uidsMatch uid (lastUID s') (length uid) = true /\
  isSongPlaying s' = true /\
  currentTrack s' = currentTrack (state g) /\
  count is_stop (log_of r) = 0%nat /\
  count is_play (log_of r) = 0%nat.
Proof.
  intros Htag Hdue Hplay Hrange Hsong. cbv zeta. rewrite loop_play_run.
  pose proof (checkVolumeButtons_frame (ms_buttons i) (pin_up i) (pin_down i) g) as Hb.
  cbv zeta in Hb.
  destruct (checkVolumeButtons _ _ _ g) as [[[] g1] l1].
  unfold globals_of, log_of in *. cbn [fst snd] in *.
  destruct Hb as ([v Hs] & Hc1 & Hc2 & Hc3).
  destruct g1 as [s1 b1]. cbn [state buttons] in *. subst s1.
  change (poll_due (ms_loop i) (set_currentVolume v (state g)))
    with (poll_due (ms_loop i) (state g)).
  rewrite Hdue, Htag.
  destruct (isNewTag uid (set_currentVolume v (state g))) eqn:Hnew.
  - rewrite (checkNFCTag_new_run uid (ms_detect i) (nfc_page i)
               (mkGlobals (set_currentVolume v (state g)) b1) Hnew). cbv zeta.
    rewrite handleNewTag_same_track by (cbn; assumption).
    rewrite handleGracePeriod_run. cbn.
    rewrite ?count_app, ?Hc1, ?Hc2, ?Hc3. cbn.
    repeat split; auto. apply uidsMatch_stored.
  - rewrite (checkNFCTag_same_run uid (ms_detect i) (nfc_page i)
               (mkGlobals (set_currentVolume v (state g)) b1) Hnew).
    rewrite handleGracePeriod_run. cbn.
    rewrite ?count_app, ?Hc1, ?Hc2, ?Hc3. cbn.
    repeat split; auto.
    unfold isNewTag in Hnew. cbn in Hnew. bool_facts. assumption.
Qed.

(** ** Runs of iterations *)

Lemma run_ticks_app ticks1 ticks2 g :
  run_ticks (ticks1 ++ ticks2) g =
  let r1 := run_ticks ticks1 g in
  let r2 := run_ticks ticks2 (fst r1) in
  (fst r2, snd r1 ++ snd r2).
Proof.
  revert g. induction ticks1 as [|i ticks1 IH]; intros g; cbn [run_ticks app].
  - cbv zeta. cbn. destruct (run_ticks ticks2 g). reflexivity.
  - rewrite IH. reflexivity.
Qed.

Lemma stops_per_tick_app logs1 logs2 :
  stops_per_tick (logs1 ++ logs2) = stops_per_tick logs1 ++ stops_per_tick logs2.
Proof. apply map_app. Qed.

(** Without a song playing and without a tag, nothing is stopped. *)
Lemma run_ticks_stopped ticks : forall g,
  isSongPlaying (state g) = false ->
  Forall (fun i => nfc_target i = None) ticks ->
  stops_per_tick (snd (run_ticks ticks g)) = repeat 0%nat (length ticks).
Proof.
  induction ticks as [|i ticks IH]; intros g Hplay Hall; [reflexivity|].
  inversion Hall as [|? ? Hnone Hall']; subst.
  destruct (loop_play_no_tag i g Hnone) as (_ & _ & _ & Hp & _ & Hstop & _).
  rewrite Hplay in Hp, Hstop. rewrite andb_false_r in Hstop. cbn in Hp, Hstop.
  cbn [run_ticks snd stops_per_tick map length repeat]. f_equal; [exact Hstop|].
  apply IH; assumption.
Qed.

(** While the tag is away no longer than the grace period, nothing is
    stopped and the song goes on. *)
Lemma run_ticks_within_grace ticks : forall g,
  isSongPlaying (state g) = true ->
  Forall (fun i => nfc_target i = None) ticks ->
  Forall (fun i => elapsed g i <= TAG_GRACE_PERIOD) ticks ->
  let r := run_ticks ticks g in
  stops_per_tick (snd r) = repeat 0%nat (length ticks) /\
  isSongPlaying (state (fst r)) = true /\
  currentTrack (state (fst r)) = currentTrack (state g).
Proof.
  induction ticks as [|i ticks IH]; intros g Hplay Hall Hgrace; cbv zeta.
  - cbn. auto.
  - inversion Hall as [|? ? Hnone Hall']; subst.
    inversion Hgrace as [|? ? Hle Hgrace']; subst.
    destruct (loop_play_no_tag i g Hnone) as (_ & Ht & _ & Hp & Htr & Hstop & _).
    assert (Hno : (elapsed g i >? TAG_GRACE_PERIOD) = false).
    { rewrite Z.gtb_ltb. apply Z.ltb_ge. exact Hle. }
    rewrite Hno, andb_false_r in Hp, Htr, Hstop.
    rewrite Hplay in Hp. cbn in Hp.
    set (g1 := globals_of (loop_play i g)) in *.
    assert (Hgrace1 : Forall (fun i => elapsed g1 i <= TAG_GRACE_PERIOD) ticks).
    { unfold elapsed in *. rewrite Ht. exact Hgrace'. }
    destruct (IH g1 Hp Hall' Hgrace1) as (IH1 & IH2 & IH3).
    cbn [run_ticks fst snd stops_per_tick map length repeat]. fold g1.
    repeat split.
    + f_equal; [exact Hstop | exact IH1].
    + exact IH2.
    + rewrite IH3. exact Htr.
Qed.

(** While the tag stays detected nothing is stopped and no page is read. *)
Lemma run_ticks_tag_stays uid ticks : forall g,
  isTagPresent (state g) = true ->
  uidsMatch uid (lastUID (state g)) (length uid) = true ->
  Forall (fun i => nfc_target i = Some uid) ticks ->
  let r := run_ticks ticks g in
  stops_per_tick (snd r) = repeat 0%nat (length ticks) /\
  map (count is_read_page) (snd r) = repeat 0%nat (length ticks).
Proof.
  induction ticks as [|i ticks IH]; intros g Hpres Hmatch Hall; cbv zeta.
  - cbn. auto.
  - inversion Hall as [|? ? Htag Hall']; subst.
    destruct (loop_play_tag_stays i g uid Htag Hpres Hmatch)
      as (Hp & Hu & _ & _ & Hstop & _ & Hread).
    set (g1 := globals_of (loop_play i g)) in *.
    rewrite <- Hu in Hmatch.
    destruct (IH g1 Hp Hmatch Hall') as (IH1 & IH2).
    cbn [run_ticks fst snd stops_per_tick map length repeat]. fold g1.
    split; f_equal; assumption.
Qed.

(** The song is stopped in the first iteration past the grace period,
    provided the reader was polled after the tag left. *)
Lemma run_ticks_grace_expiry pre : forall g tk post,
  isSongPlaying (state g) = true ->
  Forall (fun i => nfc_target i = None) (pre ++ tk :: post) ->
  Forall (fun i => elapsed g i <= TAG_GRACE_PERIOD) pre ->
  elapsed g tk > TAG_GRACE_PERIOD ->
  isTagPresent (state g) = false \/ Exists (polls_in g) (pre ++ [tk]) ->
  stops_per_tick (snd (run_ticks (pre ++ tk :: post) g)) =
  repeat 0%nat (length pre) ++ 1%nat :: repeat 0%nat (length post).
Proof.
  induction pre as [|i pre IH]; intros g tk post Hplay Hall Hgrace Hexp Hseen.
  - cbn [app] in *. inversion Hall as [|? ? Hnone Hall']; subst.
    destruct (loop_play_no_tag tk g Hnone) as (_ & _ & _ & Hp & _ & Hstop & _).
    assert (Hnp : isTagPresent (state g) && negb (poll_due (ms_loop tk) (state g))
                  = false).
    { destruct Hseen as [Ha | Hex]; [rewrite Ha; reflexivity|].
      inversion Hex as [? ? Hd | ? ? Hd]; subst; [|inversion Hd].
      unfold polls_in in Hd. rewrite Hd. apply andb_false_r. }
    apply Z.gtb_gt in Hexp.
    rewrite Hnp, Hplay, Hexp in Hp, Hstop. cbn in Hp, Hstop.
    cbn [run_ticks snd stops_per_tick map length repeat app].
    f_equal; [exact Hstop|].
    apply run_ticks_stopped; assumption.
  - cbn [app] in *. inversion Hall as [|? ? Hnone Hall']; subst.
    inversion Hgrace as [|? ? Hle Hgrace']; subst.
    destruct (loop_play_no_tag i g Hnone) as (Hpr & Ht & Hn & Hp & _ & Hstop & _).
    assert (Hno : (elapsed g i >? TAG_GRACE_PERIOD) = false).
    { rewrite Z.gtb_ltb. apply Z.ltb_ge. exact Hle. }
    rewrite Hno, andb_false_r in Hp, Hstop. rewrite Hplay in Hp. cbn in Hp.
    set (g1 := globals_of (loop_play i g)) in *.
    assert (Hgrace1 : Forall (fun i => elapsed g1 i <= TAG_GRACE_PERIOD) pre).
    { unfold elapsed in *. rewrite Ht. exact Hgrace'. }
    assert (Hexp1 : elapsed g1 tk > TAG_GRACE_PERIOD).
    { unfold elapsed in *. rewrite Ht. exact Hexp. }
    assert (Hseen1 : isTagPresent (state g1) = false \/
                     Exists (polls_in g1) (pre ++ [tk])).
    { rewrite Hpr. destruct Hseen as [Ha | Hex]; [left; rewrite Ha; reflexivity|].
      destruct (poll_due (ms_loop i) (state g)) eqn:Hd.
      - left. apply andb_false_r.
      - inversion Hex as [? ? Hd' | ? ? Hex']; subst.
        + unfold polls_in in Hd'. congruence.
        + right. unfold polls_in, poll_due in *. rewrite Hn. exact Hex'. }
    cbn [run_ticks snd stops_per_tick map length repeat app]. fold g1.
    f_equal; [exact Hstop|].
    apply (IH g1 tk post Hp Hall' Hgrace1 Hexp1 Hseen1).
Qed.

(** ** C2: the grace period *)

(** C2.  A song is playing and the reader sees no tag in any iteration
    of the run.  An iteration whose elapsed time
    [millis() - lastTagDetectionTime] (modulo 2^32) is at most 2000 ms
    sends no stop command.  When [tk] is the first iteration whose
    elapsed time exceeds 2000 ms (and the reader was polled at least
    once since the tag left, so that the tag counts as absent), the stop
    commands per iteration are: none before [tk], exactly one in [tk],
    none afterwards.  If instead the tag is detected again by the poll of
    [tk], all iterations before having stayed within 2000 ms, and its
    record reads back as the playing track, no iteration sends a stop
    command, neither before [tk], nor in [tk], nor while the tag stays
    detected afterwards.  Whatever the record of a detected tag reads,
    [handleGracePeriod] itself does nothing after a poll that detected
    a tag. *)
Theorem grace_period_single_stop :
  (forall (g : Globals) (i : Tick),
     nfc_target i = None ->
     elapsed g i <= TAG_GRACE_PERIOD ->
     count is_stop (log_of (loop_play i g)) = 0%nat) /\
  (forall (g : Globals) (pre : list Tick) (tk : Tick) (post : list Tick),
     isSongPlaying (state g) = true ->
     Forall (fun i => nfc_target i = None) (pre ++ tk :: post) ->
     Forall (fun i => elapsed g i <= TAG_GRACE_PERIOD) pre ->
     elapsed g tk > TAG_GRACE_PERIOD ->
     isTagPresent (state g) = false \/ Exists (polls_in g) (pre ++ [tk]) ->
     stops_per_tick (snd (run_ticks (pre ++ tk :: post) g)) =
     repeat 0%nat (length pre) ++ 1%nat :: repeat 0%nat (length post)) /\
  (forall (g : Globals) (pre : list Tick) (tk : Tick) (post : list Tick)
          (uid : list Z),
     isSongPlaying (state g) = true ->
     1 <= currentTrack (state g) <= 99 ->
     Forall (fun i => nfc_target i = None) pre ->
     Forall (fun i => elapsed g i <= TAG_GRACE_PERIOD) pre ->
     nfc_target tk = Some uid ->
     polls_in (fst (run_ticks pre g)) tk ->
     song_of (nfc_page tk) = currentTrack (state g) ->
     Forall (fun i => nfc_target i = Some uid) post ->
     stops_per_tick (snd (run_ticks (pre ++ tk :: post) g)) =
     repeat 0%nat (length (pre ++ tk :: post))) /\
  (forall (g : Globals) (uid : list Z) (now : Z) (page : option (list Z)) (t : Z),
     let g1 := globals_of (checkNFCTag (Some uid) now page g) in
     handleGracePeriod t g1 = (tt, g1, [])).
Proof.
  split; [|split; [|split]].
  - intros g i Hnone Hle.
    destruct (loop_play_no_tag i g Hnone) as (_ & _ & _ & _ & _ & Hstop & _).
    assert (Hno : (elapsed g i >? TAG_GRACE_PERIOD) = false).
    { rewrite Z.gtb_ltb. apply Z.ltb_ge. exact Hle. }
    rewrite Hno, andb_false_r in Hstop. exact Hstop.
  - intros g pre. apply run_ticks_grace_expiry.
  - intros g pre tk post uid Hplay Hrange Hnone Hgrace Htag Hdue Hsong Hstay.
    rewrite run_ticks_app. cbv zeta. cbn [snd].
    destruct (run_ticks_within_grace pre g Hplay Hnone Hgrace) as (H1 & H2 & H3).
    set (g1 := fst (run_ticks pre g)) in *.
    rewrite <- H3 in Hrange, Hsong.
    destruct (loop_play_tag_back tk g1 uid Htag Hdue H2 Hrange Hsong)
      as (Hp & Hm & _ & _ & Hstop & _).
    destruct (run_ticks_tag_stays uid post _ Hp Hm Hstay) as [H4 _].
    rewrite stops_per_tick_app, H1.
    cbn [run_ticks snd stops_per_tick map]. fold (stops_per_tick).
    unfold stops_per_tick in H4. rewrite H4, Hstop.
    rewrite length_app. cbn [length]. rewrite repeat_app. reflexivity.
  - intros g uid now page t g1.
    assert (Hp : isTagPresent (state g1) = true) by apply checkNFCTag_detect_present.
    rewrite handleGracePeriod_run. cbv zeta. rewrite Hp. reflexivity.
Qed.

(** The tag of [tag7_present] is taken away: three iterations within the
    grace period, one 2001 ms after the last detection, one later; and
    the same start with the tag put back at 2500 ms. *)
Lemma grace_period_single_stop_witness :
  stops_per_tick
    (snd (run_ticks (away_ticks ++ tick_at 3001 None None ::
                       [tick_at 3500 None None]) tag7_present))
  = [0; 0; 0; 1; 0]%nat /\
  stops_per_tick
    (snd (run_ticks (away_ticks ++ tick_at 3200 (Some long_uid) song7_page ::
                       [tick_at 3400 (Some long_uid) None]) tag7_present))
  = [0; 0; 0; 0; 0]%nat.
Proof.
  destruct grace_period_single_stop as (_ & Hgone & Hback & _).
  assert (Haway : Forall (fun i => nfc_target i = None) away_ticks).
  { repeat (constructor; [reflexivity|]). constructor. }
  assert (Hgrace : Forall (fun i => elapsed tag7_present i <= TAG_GRACE_PERIOD)
                     away_ticks).
  { repeat (constructor; [apply Z.leb_le; reflexivity|]). constructor. }
  split.
  - apply (Hgone tag7_present away_ticks (tick_at 3001 None None)
             [tick_at 3500 None None]).
    + reflexivity.
    + repeat (constructor; [reflexivity|]). constructor.
    + exact Hgrace.
    + apply Z.gtb_gt. reflexivity.
    + right. constructor. reflexivity.
  - apply (Hback tag7_present away_ticks (tick_at 3200 (Some long_uid) song7_page)
             [tick_at 3400 (Some long_uid) None] long_uid).
    + reflexivity.
    + cbn. lia.
    + exact Haway.
    + exact Hgrace.
    + reflexivity.
    + reflexivity.
    + reflexivity.
    + constructor; [reflexivity | constructor].
Defined.

(** C2 as stated fails where the returning tag cannot be read.  The tag
    of [tag7_present] is missed by the poll at 1200 ms and detected
    again at 1400 ms, 400 ms after its last detection and so within the
    grace period, but the page read fails: the tag counts as new,
    [handleNewTag] stops the song, and one stop command is sent in that
    iteration although no elapsed time exceeds 2000 ms. *)
Lemma grace_period_redetect_counterexample :
  isSongPlaying (state tag7_present) = true /\
  Forall (fun i => elapsed tag7_present i <= TAG_GRACE_PERIOD)
    back_unreadable_ticks /\
  map nfc_target back_unreadable_ticks = [None; Some long_uid; Some long_uid] /\
  stored_uid (state tag7_present) = long_uid /\
  stops_per_tick (snd (run_ticks back_unreadable_ticks tag7_present))
    = [0; 1; 0]%nat /\
  isSongPlaying (state (fst (run_ticks back_unreadable_ticks tag7_present)))
    = false.
Proof.
  split; [reflexivity|]. split.
  - unfold back_unreadable_ticks.
    repeat (constructor; [apply Z.leb_le; reflexivity|]). constructor.
  - repeat split; reflexivity.
Qed.

(** ** C1: classification of a detected tag *)

(** What line 242 decides: a detected UID counts as the tag already on
    the reader exactly when a tag is marked present and the first
    [length uid] bytes of the [lastUID] buffer are the detected bytes.
    The stored length [lastUIDLength] takes no part. *)
Lemma isNewTag_spec uid s :
  (length uid <= length (lastUID s))%nat ->
  (isNewTag uid s = false <->
   isTagPresent s = true /\ take (length uid) (lastUID s) = uid).
Proof.
  intros Hlen. unfold isNewTag.
  rewrite orb_false_iff, !negb_false_iff.
  rewrite (uidsMatch_prefix uid (lastUID s) (length uid)) by lia.
  rewrite firstn_all. split; intros [H1 H2]; split; congruence.
Qed.

(** X1.  With a tag marked present and a detected UID as long as the
    stored one, the detected tag is new exactly when its UID differs
    from the stored UID: there the code makes the comparison of the
    specification. *)
Lemma isNewTag_same_length uid s :
  isTagPresent s = true ->
  Z.of_nat (length uid) = lastUIDLength s ->
  (length uid <= length (lastUID s))%nat ->
  (isNewTag uid s = true <-> uid <> stored_uid s).
Proof.
  intros Hpres Hlen Hbuf. unfold stored_uid. rewrite <- Hlen, Nat2Z.id.
  destruct (isNewTag uid s) eqn:E.
  - split; [|reflexivity]. intros _ Heq.
    assert (Hf : isNewTag uid s = false) by (apply isNewTag_spec; auto).
    congruence.
  - apply isNewTag_spec in E; [|exact Hbuf]. destruct E as [_ E].
    split; [discriminate|]. intros Hne. exfalso. apply Hne. symmetry. exact E.
Qed.

(** C1 fails on the code.  The 7-byte tag [long_uid] is present and
    stored with its length 7; the reader now answers the 4-byte UID
    [short_uid], a strict prefix of it, on a tag that carries song 9.
    The two UIDs differ (their lengths do), so the event should be a new
    tag; the code compares the first four bytes only, takes the tag for
    the one already there, does not run the new-tag handler (no page
    read, no command), and keeps track 7 and the stored 7-byte UID. *)
Theorem checkNFCTag_prefix_uid_not_new :
  let s := state tag7_present in
  let r := checkNFCTag (Some short_uid) 5000 (Some [chr_S; chr_O; chr_N; 9])
             tag7_present in
  isTagPresent s = true /\
  stored_uid s = long_uid /\
  short_uid <> stored_uid s /\
  length short_uid <> length (stored_uid s) /\
  isNewTag short_uid s = false /\
  log_of r = [] /\
  currentTrack (state (globals_of r)) = 7 /\
  stored_uid (state (globals_of r)) = long_uid.
Proof.
  cbv zeta. repeat split; try reflexivity; cbn; discriminate.
Qed.

(** ** C10: a tag without a song record left on the reader *)

Lemma polls_same_tag uid polls : forall g,
  isTagPresent (state g) = true ->
  uidsMatch uid (lastUID (state g)) (length uid) = true ->
  log_of (mseq (map (poll_tag uid) polls) g) = [].
Proof.
  induction polls as [|p polls IH]; intros g Hpres Hmatch; [reflexivity|].
  cbn [map mseq]. rewrite bind_run. unfold poll_tag at 1.
  rewrite checkNFCTag_same_run
    by (unfold isNewTag; rewrite Hpres, Hmatch; reflexivity).
  set (g1 := mkGlobals _ _).
  specialize (IH g1 eq_refl Hmatch).
  destruct (mseq (map (poll_tag uid) polls) g1) as [[[] g2] l2].
  exact IH.
Qed.

(** C10.  A newly detected tag whose page read fails or yields no valid
    record: [checkNFCTag] runs the new-tag handler once (one page read;
    one stop command if a song was playing, none otherwise; no play
    command), and nevertheless stores the UID as the last UID and marks
    the tag present.  From then on, while every poll detects the same
    UID, no poll runs the handler again or sends any command, and no
    loop iteration sends a stop command or reads the page. *)
Theorem unreadable_tag_handled_once :
  forall (g : Globals) (uid : list Z) (now : Z) (page : option (list Z)),
    isNewTag uid (state g) = true ->
    bad_record page ->
    let r1 := checkNFCTag (Some uid) now page g in
    let g1 := globals_of r1 in
    stored_uid (state g1) = uid /\
    isTagPresent (state g1) = true /\
    count is_read_page (log_of r1) = 1%nat /\
    count is_stop (log_of r1) = (if isSongPlaying (state g) then 1 else 0)%nat /\
    count is_play (log_of r1) = 0%nat /\
    (forall polls : list (Z * option (list Z)),
       log_of (mseq (map (poll_tag uid) polls) g1) = []) /\
    (forall ticks : list Tick,
       Forall (fun i => nfc_target i = Some uid) ticks ->
       stops_per_tick (snd (run_ticks ticks g1)) = repeat 0%nat (length ticks) /\
       map (count is_read_page) (snd (run_ticks ticks g1))
         = repeat 0%nat (length ticks)).
Proof.
  intros g uid now page Hnew Hbad r1 g1. subst g1 r1.
  rewrite (checkNFCTag_new_run uid now page g Hnew). cbv zeta.
  rewrite handleNewTag_run. cbv zeta. rewrite (song_of_bad _ Hbad).
  cbn [Z.eqb Z.opp Pos.eqb state isSongPlaying set_lastTagDetectionTime].
  assert (Hst : forall rest,
    take (Z.to_nat (Z.of_nat (length uid))) (uid ++ rest) = uid).
  { intros rest. rewrite Nat2Z.id. apply take_app_length. }
  destruct (isSongPlaying (state g)); unfold globals_of, log_of, stored_uid; cbn;
    (split; [apply Hst|]); repeat (split; [reflexivity|]);
    (split; [intros polls; apply polls_same_tag; [reflexivity | apply uidsMatch_stored]
            | intros ticks Hall; apply (run_ticks_tag_stays uid);
              [reflexivity | apply uidsMatch_stored | exact Hall]]).
Qed.

(** A blank tag is put down while track 7 plays after the tag of
    [tag7_present] was lifted; it stays for two more polls. *)
Lemma unreadable_tag_handled_once_witness :
  let g := mkGlobals (set_isTagPresent false (state tag7_present))
             (buttons tag7_present) in
  let r1 := checkNFCTag (Some short_uid) 1400 (Some [0; 0; 0; 0]) g in
  let g1 := globals_of r1 in
  stored_uid (state g1) = short_uid /\
  isTagPresent (state g1) = true /\
  count is_read_page (log_of r1) = 1%nat /\
  count is_stop (log_of r1) = 1%nat /\
  count is_play (log_of r1) = 0%nat /\
  (forall polls : list (Z * option (list Z)),
     log_of (mseq (map (poll_tag short_uid) polls) g1) = []) /\
  (forall ticks : list Tick,
     Forall (fun i => nfc_target i = Some short_uid) ticks ->
     stops_per_tick (snd (run_ticks ticks g1)) = repeat 0%nat (length ticks) /\
     map (count is_read_page) (snd (run_ticks ticks g1))
       = repeat 0%nat (length ticks)).
Proof.
  apply (unreadable_tag_handled_once
           (mkGlobals (set_isTagPresent false (state tag7_present))
              (buttons tag7_present))
           short_uid 1400 (Some [0; 0; 0; 0])).
  - reflexivity.
  - cbn. left. intros [H _]. discriminate H.
Defined.

(** A second 7-byte tag replaces the one on the reader: same length as
    the stored UID, so the comparison of the code is the one of the
    specification. *)
Lemma isNewTag_same_length_witness :
  isNewTag [4; 1; 2; 3; 4; 5; 6] (state tag7_present) = true <->
  [4; 1; 2; 3; 4; 5; 6] <> stored_uid (state tag7_present).
Proof.
  apply (isNewTag_same_length [4; 1; 2; 3; 4; 5; 6] (state tag7_present)).
  - reflexivity.
  - reflexivity.
  - cbn. lia.
Defined.

(** ** C9: a track is recorded exactly while a song plays *)

Lemma playSong_inv n g :
  1 <= n <= 99 -> playback_inv (state (globals_of (playSong n g))).
Proof.
  intros Hn. rewrite playSong_run. unfold playback_inv, globals_of. cbn.
  split; [lia | reflexivity].
Qed.

Lemma stopSong_inv g :
  playback_inv (state g) -> playback_inv (state (globals_of (stopSong g))).
Proof.
  intros Hinv. rewrite stopSong_run.
  destruct (isSongPlaying (state g)); [|exact Hinv].
  unfold playback_inv, globals_of. cbn. split; [discriminate | congruence].
Qed.

Lemma handleNewTag_inv rawUID page g :
  playback_inv (state g) ->
  playback_inv (state (globals_of (handleNewTag rawUID page g))).
Proof. apply handleNewTag_frame. Qed.

Lemma checkNFCTag_inv target now page g :
  playback_inv (state g) ->
  playback_inv (state (globals_of (checkNFCTag target now page g))).
Proof.
  intros Hinv. destruct target as [uid|].
  - destruct (isNewTag uid (state g)) eqn:Hnew.
    + rewrite (checkNFCTag_new_run uid now page g Hnew). cbv zeta.
      pose proof (handleNewTag_inv uid page
        (mkGlobals (set_lastTagDetectionTime now (state g)) (buttons g)) Hinv) as H.
      destruct (handleNewTag uid page _) as [[[] g2] l2].
      unfold globals_of in *. cbn in *. exact H.
    + rewrite (checkNFCTag_same_run uid now page g Hnew). exact Hinv.
  - rewrite checkNFCTag_none_run.
    destruct (isTagPresent (state g)); exact Hinv.
Qed.

Lemma handleGracePeriod_inv now g :
  playback_inv (state g) ->
  playback_inv (state (globals_of (handleGracePeriod now g))).
Proof.
  intros Hinv. rewrite handleGracePeriod_run. cbv zeta.
  destruct (negb (isTagPresent (state g)) && isSongPlaying (state g) &&
            (usub now (lastTagDetectionTime (state g)) >? TAG_GRACE_PERIOD));
    [|exact Hinv].
  unfold playback_inv, globals_of. cbn. split; [discriminate | congruence].
Qed.

Lemma checkVolumeButtons_inv now pinUp pinDown g :
  playback_inv (state g) ->
  playback_inv (state (globals_of (checkVolumeButtons now pinUp pinDown g))).
Proof.
  intros Hinv.
  destruct (checkVolumeButtons_frame now pinUp pinDown g) as ([v Hs] & _).
  rewrite Hs. exact Hinv.
Qed.

Lemma loop_play_inv i g :
  playback_inv (state g) -> playback_inv (state (globals_of (loop_play i g))).
Proof.
  intros Hinv. rewrite loop_play_run.
  pose proof (checkVolumeButtons_inv (ms_buttons i) (pin_up i) (pin_down i) g Hinv) as H1.
  destruct (checkVolumeButtons _ _ _ g) as [[[] g1] l1].
  unfold globals_of in H1. cbn [fst snd] in H1.
  assert (H2 : playback_inv (state (globals_of
    (if poll_due (ms_loop i) (state g1)
     then let '(_, g', log) :=
            checkNFCTag (nfc_target i) (ms_detect i) (nfc_page i) g1 in
          (tt, mkGlobals (set_lastNFCCheckTime (ms_loop i) (state g')) (buttons g'), log)
     else (tt, g1, []))))).
  { destruct (poll_due (ms_loop i) (state g1)); [|exact H1].
    pose proof (checkNFCTag_inv (nfc_target i) (ms_detect i) (nfc_page i) g1 H1) as H.
    destruct (checkNFCTag _ _ _ g1) as [[[] g'] l']. exact H. }
  destruct (if poll_due (ms_loop i) (state g1) then _ else _) as [[[] g2] l2].
  unfold globals_of in H2. cbn [fst snd] in H2.
  pose proof (handleGracePeriod_inv (ms_grace i) g2 H2) as H3.
  destruct (handleGracePeriod _ g2) as [[[] g3] l3]. exact H3.
Qed.

(** C9.  [isSongPlaying] is true exactly when [currentTrack] is not 0:
    at start-up, after [playSong] with a song number 1..99 (the only
    numbers [handleNewTag] passes), and, when it held before, after
    [stopSong], [handleNewTag], [checkNFCTag], [handleGracePeriod],
    [checkVolumeButtons], one loop iteration and any run of
    iterations. *)
Theorem playback_invariant :
  playback_inv state_init /\
  (forall g n, 1 <= n <= 99 -> playback_inv (state (globals_of (playSong n g)))) /\
  (forall g, playback_inv (state g) ->
     playback_inv (state (globals_of (stopSong g)))) /\
  (forall g rawUID page, playback_inv (state g) ->
     playback_inv (state (globals_of (handleNewTag rawUID page g)))) /\
  (forall g target now page, playback_inv (state g) ->
     playback_inv (state (globals_of (checkNFCTag target now page g)))) /\
  (forall g now, playback_inv (state g) ->
     playback_inv (state (globals_of (handleGracePeriod now g)))) /\
  (forall g now pinUp pinDown, playback_inv (state g) ->
     playback_inv (state (globals_of (checkVolumeButtons now pinUp pinDown g)))) /\
  (forall g i, playback_inv (state g) ->
     playback_inv (state (globals_of (loop_play i g)))) /\
  (forall ticks g, playback_inv (state g) ->
     playback_inv (state (fst (run_ticks ticks g)))).
Proof.
  split; [|split; [|split; [|split; [|split; [|split; [|split; [|split]]]]]]].
  - unfold playback_inv. cbn. split; [discriminate | congruence].
  - intros g n Hn. apply playSong_inv, Hn.
  - intros g. apply stopSong_inv.
  - intros g rawUID page. apply handleNewTag_inv.
  - intros g target now page. apply checkNFCTag_inv.
  - intros g now. apply handleGracePeriod_inv.
  - intros g now pinUp pinDown. apply checkVolumeButtons_inv.
  - intros g i. apply loop_play_inv.
  - intros ticks. induction ticks as [|i ticks IH]; intros g H; [apply H|].
    cbn [run_ticks fst]. apply IH, loop_play_inv, H.
Qed.

(** From [tag7_present], where track 7 plays: a tag with song 12 takes
    over (stop, then play), is lifted, and the grace period stops the
    song; the invariant holds at the end of the run, after [stopSong]
    of the playing state and after [playSong 12]. *)
Lemma playback_invariant_witness :
  let r := run_ticks swap_then_away_ticks tag7_present in
  playback_inv (state tag7_present) /\
  map playback_cmds (snd r) = [[DfStop; DfPlay 12]; []; [DfStop]] /\
  playback_inv (state (fst r)) /\
  playback_inv (state (fst (run_ticks (take 1 swap_then_away_ticks) tag7_present))) /\
  currentTrack (state (fst (run_ticks (take 1 swap_then_away_ticks) tag7_present)))
    = 12 /\
  playback_inv (state (globals_of (stopSong tag7_present))) /\
  playback_inv (state (globals_of (playSong 12 globals_init))).
Proof.
  destruct playback_invariant as (_ & Hplay & Hstop & _ & _ & _ & _ & _ & Hrun).
  assert (H7 : playback_inv (state tag7_present)).
  { unfold playback_inv. cbn. split; [discriminate | reflexivity]. }
  cbv zeta. split; [exact H7|]. split; [reflexivity|].
  split; [apply (Hrun swap_then_away_ticks tag7_present H7)|].
  split; [apply (Hrun (take 1 swap_then_away_ticks) tag7_present H7)|].
  split; [reflexivity|].
  split; [apply (Hstop tag7_present H7)|].
  apply (Hplay globals_init 12). lia.
Defined.

(** * Further properties of the play-mode code *)

(** ** The peripherals follow the firmware state *)

Lemma device_run_app d log1 log2 :
  device_run d (log1 ++ log2) =
  match device_run d log1 with
  | Some d' => device_run d' log2
  | None => None
  end.
Proof.
  revert d. induction log1 as [|e log1 IH]; intros d; cbn; [reflexivity|].
  destruct (device_step d e); [apply IH | reflexivity].
Qed.

Lemma follows_ret {A} (a : A) : follows (mret a).
Proof. intros g Hinv. split; [reflexivity | exact Hinv]. Qed.

Lemma follows_bind {A B} (m : M A) (k : A -> M B) :
  follows m -> (forall a, follows (k a)) -> follows (m ≫= k).
Proof.
  intros Hm Hk g Hinv. rewrite bind_run.
  destruct (Hm g Hinv) as [H1 H2].
  destruct (m g) as [[a g1] l1]. unfold log_of, globals_of in *. cbn [fst snd] in *.
  destruct (Hk a g1 H2) as [H3 H4].
  destruct (k a g1) as [[b g2] l2]. cbn [fst snd] in *.
  rewrite device_run_app, H1. split; assumption.
Qed.

Lemma follows_get_state : follows get_state.
Proof. intros g Hinv. split; [reflexivity | exact Hinv]. Qed.

Lemma follows_get_buttons : follows get_buttons.
Proof. intros g Hinv. split; [reflexivity | exact Hinv]. Qed.

Lemma follows_upd_buttons f : follows (upd_buttons f).
Proof. intros g Hinv. split; [reflexivity | exact Hinv]. Qed.

(** An assignment to a field that is neither the track, the playing
    flag nor the volume. *)
Lemma follows_upd_tag f :
  (forall s, currentTrack (f s) = currentTrack s /\
             isSongPlaying (f s) = isSongPlaying s /\
             currentVolume (f s) = currentVolume s) ->
  follows (upd_state f).
Proof.
  intros Hf g Hinv. destruct (Hf (state g)) as (H1 & H2 & H3).
  unfold upd_state, log_of, globals_of, mirror, playback_inv in *. cbn.
  rewrite H1, H2, H3. split; [reflexivity | exact Hinv].
Qed.

Lemma follows_adjustVolume delta : follows (adjustVolume delta).
Proof.
  intros g Hinv. rewrite adjustVolume_run. cbv zeta.
  unfold log_of, globals_of, mirror. cbn.
  pose proof (clamp_range (int_add (currentVolume (state g)) delta)) as [H1 H2].
  apply Z.leb_le in H1. apply Z.leb_le in H2. rewrite H1, H2. cbn.
  split; [reflexivity | exact Hinv].
Qed.

Lemma follows_stopSong : follows stopSong.
Proof.
  intros g Hinv. rewrite stopSong_run.
  destruct (isSongPlaying (state g)) eqn:Hp; [|split; [reflexivity | exact Hinv]].
  assert (Ht : currentTrack (state g) <> 0) by (apply Hinv; exact Hp).
  apply Z.eqb_neq in Ht.
  unfold log_of, globals_of, mirror, playback_inv. cbn. rewrite Ht.
  split; [reflexivity|]. split; [discriminate | congruence].
Qed.

Lemma follows_handleNewTag rawUID page : follows (handleNewTag rawUID page).
Proof.
  intros g Hinv. split; [|apply handleNewTag_inv; exact Hinv].
  rewrite handleNewTag_run. cbv zeta.
  assert (Hon : isSongPlaying (state g) = true ->
                (currentTrack (state g) =? 0) = false).
  { intros Hp. apply Z.eqb_neq, Hinv, Hp. }
  assert (Hoff : isSongPlaying (state g) = false ->
                 (currentTrack (state g) =? 0) = true).
  { intros Hp. apply Z.eqb_eq.
    destruct (Z.eq_dec (currentTrack (state g)) 0) as [H0 | H0]; [exact H0|].
    destruct Hinv as [_ Hinv]. rewrite (Hinv H0) in Hp. discriminate Hp. }
  destruct (song_of page =? -1) eqn:En;
    destruct (isSongPlaying (state g)) eqn:Hp;
    try destruct (currentTrack (state g) =? song_of page) eqn:Et;
    unfold log_of, globals_of, mirror; cbn; rewrite ?Hp; cbn;
    rewrite ?(Hon eq_refl), ?(Hoff eq_refl); reflexivity.
Qed.

Lemma follows_checkNFCTag target now page : follows (checkNFCTag target now page).
Proof.
  unfold checkNFCTag. destruct target as [uid|].
  - apply follows_bind; [apply follows_upd_tag; intros s; cbn; auto|]. intros _.
    apply follows_bind; [apply follows_get_state|]. intros s.
    apply follows_bind; [|intros _; apply follows_upd_tag; intros s'; cbn; auto].
    destruct (isNewTag uid s); [|apply follows_ret].
    apply follows_bind; [apply follows_handleNewTag|]. intros _.
    apply follows_bind; intros; apply follows_upd_tag; intros s'; cbn; auto.
  - apply follows_bind; [apply follows_get_state|]. intros s.
    destruct (isTagPresent s); [|apply follows_ret].
    apply follows_upd_tag. intros s'. cbn. auto.
Qed.

Lemma follows_handleGracePeriod now : follows (handleGracePeriod now).
Proof.
  unfold handleGracePeriod.
  apply follows_bind; [apply follows_get_state|]. intros s.
  destruct (isTagPresent s || negb (isSongPlaying s)); [apply follows_ret|].
  cbv zeta. destruct (_ >? _); [apply follows_stopSong | apply follows_ret].
Qed.

Lemma follows_checkVolumeButtons now pinUp pinDown :
  follows (checkVolumeButtons now pinUp pinDown).
Proof.
  unfold checkVolumeButtons. cbv zeta.
  apply follows_bind; [|intros _]; unfold volumeUpBlock, volumeDownBlock;
    (apply follows_bind; [apply follows_get_buttons|]; intros b;
     apply follows_bind; [|intros _; apply follows_upd_buttons];
     destruct (_ && _ && _); [|apply follows_ret];
     apply follows_bind; [apply follows_adjustVolume|];
     intros _; apply follows_upd_buttons).
Qed.

Lemma follows_loop_play i : follows (loop_play i).
Proof.
  unfold loop_play. cbv zeta.
  apply follows_bind; [apply follows_checkVolumeButtons|]. intros _.
  apply follows_bind; [apply follows_get_state|]. intros s.
  apply follows_bind; [|intros _; apply follows_handleGracePeriod].
  destruct (poll_due (ms_loop i) s); [|apply follows_ret].
  apply follows_bind; [apply follows_checkNFCTag|]. intros _.
  apply follows_upd_tag. intros s'. cbn. auto.
Qed.

(** X2.  In any run of loop iterations from a state in which a track is
    recorded exactly while a song plays, the commands sent, taken in
    order over all iterations, are accepted by the peripherals (a play
    command only while nothing plays, a stop command only while a track
    plays, every volume within 0..30) and leave them as the firmware
    state says: the module plays [currentTrack] (or nothing when it is
    0), the LED is on exactly when [isSongPlaying], and the module's
    volume is [currentVolume]. *)
Theorem peripherals_mirror_state :
  forall (ticks : list Tick) (g : Globals),
    playback_inv (state g) ->
    let r := run_ticks ticks g in
    device_run (mirror g) (concat (snd r)) = Some (mirror (fst r)).
Proof.
  induction ticks as [|i ticks IH]; intros g Hinv; cbv zeta; [reflexivity|].
  cbn [run_ticks fst snd concat].
  destruct (follows_loop_play i g Hinv) as [H1 H2].
  rewrite device_run_app, H1. apply IH, H2.
Qed.

(** From start-up: a tag with song 7 is put down, lifted for longer than
    the grace period, the volume is raised once. *)
Lemma peripherals_mirror_state_witness :
  let ticks :=
    [tick_at 1000 (Some long_uid) song7_page; tick_at 1200 None None;
     mkTick 3300 3300 LOW HIGH None 3300 None 3300] in
  let r := run_ticks ticks globals_init in
  device_run (mirror globals_init) (concat (snd r)) = Some (mirror (fst r)).
Proof.
  apply (peripherals_mirror_state
           [tick_at 1000 (Some long_uid) song7_page; tick_at 1200 None None;
            mkTick 3300 3300 LOW HIGH None 3300 None 3300] globals_init).
  unfold playback_inv. cbn. split; [discriminate | congruence].
Defined.

(** ** A new tag takes over *)

Lemma playback_cmds_app log1 log2 :
  playback_cmds (log1 ++ log2) = playback_cmds log1 ++ playback_cmds log2.
Proof. apply List.filter_app. Qed.

Lemma checkVolumeButtons_playback_cmds now pinUp pinDown g :
  playback_cmds (log_of (checkVolumeButtons now pinUp pinDown g)) = [].
Proof.
  rewrite checkVolumeButtons_run, volumeUpBlock_run. cbv zeta.
  destruct (_ && _ && _); rewrite volumeDownBlock_run; cbv zeta;
    destruct (_ && _ && _); reflexivity.
Qed.

Lemma loop_play_new_tag :
  forall (i : Tick) (g : Globals) (uid : list Z) (n : Z),
    nfc_target i = Some uid ->
    poll_due (ms_loop i) (state g) = true ->
    isNewTag uid (state g) = true ->
    song_of (nfc_page i) = n ->
    1 <= n <= 99 ->
    let r := loop_play i g in
    let s := state g in
    let s' := state (globals_of r) in
    playback_cmds (log_of r) =
      (if isSongPlaying s
       then if currentTrack s =? n then [] else [DfStop; DfPlay n]
       else [DfPlay n]) /\
    isSongPlaying s' = true /\
    currentTrack s' = n /\
    isTagPresent s' = true /\
    stored_uid s' = uid /\
    lastTagDetectionTime s' = ms_detect i.
Proof.
  intros i g uid n Htag Hdue Hnew Hsong Hn. cbv zeta. rewrite loop_play_run.
  pose proof (checkVolumeButtons_frame (ms_buttons i) (pin_up i) (pin_down i) g) as Hb.
  pose proof (checkVolumeButtons_playback_cmds (ms_buttons i) (pin_up i) (pin_down i) g)
    as Hc.
  cbv zeta in Hb.
  destruct (checkVolumeButtons _ _ _ g) as [[[] g1] l1].
  unfold globals_of, log_of in *. cbn [fst snd] in *.
  destruct Hb as ([v Hs] & _).
  destruct g1 as [s1 b1]. cbn [state buttons] in *. subst s1.
  change (poll_due (ms_loop i) (set_currentVolume v (state g)))
    with (poll_due (ms_loop i) (state g)).
  rewrite Hdue, Htag.
  rewrite (checkNFCTag_new_run uid (ms_detect i) (nfc_page i)
             (mkGlobals (set_currentVolume v (state g)) b1) Hnew).
  cbv zeta. rewrite handleNewTag_run. cbv zeta. rewrite Hsong.
  assert (En : (n =? -1) = false) by (apply Z.eqb_neq; lia).
  rewrite En. cbn [state buttons isSongPlaying currentTrack set_currentVolume
                     set_lastTagDetectionTime].
  assert (Hst : forall rest,
    take (Z.to_nat (Z.of_nat (length uid))) (uid ++ rest) = uid).
  { intros rest. rewrite Nat2Z.id. apply take_app_length. }
  destruct (isSongPlaying (state g)) eqn:Hp;
    [destruct (currentTrack (state g) =? n) eqn:Et|];
    rewrite handleGracePeriod_run; cbn;
    rewrite !playback_cmds_app, Hc; unfold stored_uid; cbn;
    bool_facts; repeat split; auto.
Qed.

(** X3.  An iteration whose poll detects a tag that counts as new and
    carries a valid record for song [n] ends with song [n] playing, the
    tag marked present and its UID stored.  If another track was playing
    the stop command is sent before the play command; if track [n] was
    already playing neither is sent; if nothing was playing only the play
    command is sent. *)
Theorem new_tag_switches_track :
  forall (i : Tick) (g : Globals) (uid : list Z) (n : Z),
    nfc_target i = Some uid ->
    poll_due (ms_loop i) (state g) = true ->
    isNewTag uid (state g) = true ->
    song_of (nfc_page i) = n ->
    1 <= n <= 99 ->
    let r := loop_play i g in
    let s := state g in
    let s' := state (globals_of r) in
    playback_cmds (log_of r) =
      (if isSongPlaying s
       then if currentTrack s =? n then [] else [DfStop; DfPlay n]
       else [DfPlay n]) /\
    isSongPlaying s' = true /\
    currentTrack s' = n /\
    isTagPresent s' = true /\
    stored_uid s' = uid /\
    lastTagDetectionTime s' = ms_detect i.
Proof.
  intros i g uid n Htag Hdue Hnew Hsong Hn.
  destruct (loop_play_new_tag i g uid n Htag Hdue Hnew Hsong Hn)
    as (Hcmds & Hplay & Htrack & Hpres & Huid & Htime).
  cbv zeta. repeat split; assumption.
Qed.

(** Track 7 plays from the tag [long_uid]; a tag with another UID and
    song 12 replaces it between two polls. *)
Lemma new_tag_switches_track_witness :
  let i := tick_at 1300 (Some [9; 9; 9; 9]) (Some [chr_S; chr_O; chr_N; 12]) in
  let r := loop_play i tag7_present in
  let s' := state (globals_of r) in
  playback_cmds (log_of r) = [DfStop; DfPlay 12] /\
  isSongPlaying s' = true /\
  currentTrack s' = 12 /\
  isTagPresent s' = true /\
  stored_uid s' = [9; 9; 9; 9] /\
  lastTagDetectionTime s' = 1300.
Proof.
  apply (new_tag_switches_track
           (tick_at 1300 (Some [9; 9; 9; 9]) (Some [chr_S; chr_O; chr_N; 12]))
           tag7_present [9; 9; 9; 9] 12).
  - reflexivity.
  - reflexivity.
  - reflexivity.
  - reflexivity.
  - lia.
Defined.

(** ** The UID buffer *)

Lemma keeps_ret {A} P (a : A) : keeps P (mret a).
Proof. intros g H. exact H. Qed.

Lemma keeps_bind {A B} P (m : M A) (k : A -> M B) :
  keeps P m -> (forall a, keeps P (k a)) -> keeps P (m ≫= k).
Proof.
  intros Hm Hk g H. rewrite bind_run. specialize (Hm g H).
  destruct (m g) as [[a g1] l1]. unfold globals_of in *. cbn [fst snd] in *.
  specialize (Hk a g1 Hm). destruct (k a g1) as [[b g2] l2]. exact Hk.
Qed.

Lemma keeps_upd_state P f :
  (forall s, P s -> P (f s)) -> keeps P (upd_state f).
Proof. intros Hf g H. apply Hf, H. Qed.

Lemma keeps_buffer_setter (f : SystemState -> SystemState) :
  (forall s, lastUID (f s) = lastUID s /\ lastUIDLength (f s) = lastUIDLength s) ->
  forall s, uid_buffer_ok s -> uid_buffer_ok (f s).
Proof.
  intros Hf s H. destruct (Hf s) as [H1 H2]. unfold uid_buffer_ok.
  rewrite H1, H2. exact H.
Qed.

Lemma keeps_buffer_stopSong : keeps uid_buffer_ok stopSong.
Proof.
  intros g H. rewrite stopSong_run.
  destruct (isSongPlaying (state g)); exact H.
Qed.

Lemma keeps_buffer_handleNewTag rawUID page :
  keeps uid_buffer_ok (handleNewTag rawUID page).
Proof.
  intros g H.
  destruct (handleNewTag_frame rawUID page g) as (_ & Hs & _).
  rewrite Hs. exact H.
Qed.

Lemma keeps_buffer_checkVolumeButtons now pinUp pinDown :
  keeps uid_buffer_ok (checkVolumeButtons now pinUp pinDown).
Proof.
  intros g H.
  destruct (checkVolumeButtons_frame now pinUp pinDown g) as ([v Hs] & _).
  rewrite Hs. exact H.
Qed.

Lemma keeps_buffer_handleGracePeriod now :
  keeps uid_buffer_ok (handleGracePeriod now).
Proof.
  intros g H. rewrite handleGracePeriod_run. cbv zeta.
  destruct (_ && _ && _); exact H.
Qed.

Lemma keeps_buffer_checkNFCTag target now page :
  match target with Some uid => (length uid <= 7)%nat | None => True end ->
  keeps uid_buffer_ok (checkNFCTag target now page).
Proof.
  intros Hfit. unfold checkNFCTag. destruct target as [uid|].
  - apply keeps_bind;
      [apply keeps_upd_state, keeps_buffer_setter; intros s; cbn; auto|].
    intros _. apply keeps_bind; [intros g H; exact H|]. intros s.
    apply keeps_bind;
      [|intros _; apply keeps_upd_state, keeps_buffer_setter; intros s'; cbn; auto].
    destruct (isNewTag uid s); [|apply keeps_ret].
    apply keeps_bind; [apply keeps_buffer_handleNewTag|]. intros _.
    apply keeps_bind.
    + apply keeps_upd_state. intros s' [Hlen Hrange]. unfold uid_buffer_ok. cbn.
      rewrite length_app, length_drop, Hlen. lia.
    + intros _. apply keeps_upd_state. intros s' [Hlen Hrange].
      unfold uid_buffer_ok. cbn. split; [exact Hlen | lia].
  - apply keeps_bind; [intros g H; exact H|]. intros s.
    destruct (isTagPresent s); [|apply keeps_ret].
    apply keeps_upd_state, keeps_buffer_setter. intros s'. cbn. auto.
Qed.

Lemma keeps_buffer_loop_play i :
  uid_fits i -> keeps uid_buffer_ok (loop_play i).
Proof.
  intros Hfit. unfold loop_play. cbv zeta.
  apply keeps_bind; [apply keeps_buffer_checkVolumeButtons|]. intros _.
  apply keeps_bind; [intros g H; exact H|]. intros s.
  apply keeps_bind; [|intros _; apply keeps_buffer_handleGracePeriod].
  destruct (poll_due (ms_loop i) s); [|apply keeps_ret].
  apply keeps_bind; [apply keeps_buffer_checkNFCTag, Hfit|]. intros _.
  apply keeps_upd_state, keeps_buffer_setter. intros s'. cbn. auto.
Qed.

(** X4.  As long as the reader answers UIDs of at most 7 bytes, the
    [memcpy] into [lastUID] stays inside the buffer: after any run of
    loop iterations [lastUID] still has exactly 7 bytes and
    [lastUIDLength] is between 0 and 7. *)
Theorem uid_buffer_invariant :
  forall (ticks : list Tick) (g : Globals),
    uid_buffer_ok (state g) ->
    Forall uid_fits ticks ->
    uid_buffer_ok (state (fst (run_ticks ticks g))).
Proof.
  induction ticks as [|i ticks IH]; intros g H Hall; [exact H|].
  inversion Hall as [|? ? Hfit Hall']; subst.
  cbn [run_ticks fst]. apply IH; [|exact Hall'].
  apply keeps_buffer_loop_play; assumption.
Qed.

Lemma uid_buffer_invariant_witness :
  uid_buffer_ok
    (state (fst (run_ticks
       [tick_at 1000 (Some short_uid) song7_page;
        tick_at 1200 (Some long_uid) None] globals_init))).
Proof.
  apply (uid_buffer_invariant
           [tick_at 1000 (Some short_uid) song7_page;
            tick_at 1200 (Some long_uid) None] globals_init).
  - unfold uid_buffer_ok. cbn. lia.
  - constructor; [cbn; lia|]. constructor; [cbn; lia|]. constructor.
Defined.

(** ** Polls are at least the check interval apart *)

Lemma loop_play_not_due i g :
  poll_due (ms_loop i) (state g) = false ->
  let r := loop_play i g in
  tag_fields (state (globals_of r)) = tag_fields (state g) /\
  count is_read_page (log_of r) = 0%nat /\
  count is_play (log_of r) = 0%nat.
Proof.
  intros Hdue. cbv zeta. rewrite loop_play_run.
  pose proof (checkVolumeButtons_frame (ms_buttons i) (pin_up i) (pin_down i) g) as Hb.
  cbv zeta in Hb.
  destruct (checkVolumeButtons _ _ _ g) as [[[] g1] l1].
  unfold globals_of, log_of in *. cbn [fst snd] in *.
  destruct Hb as ([v Hs] & Hc1 & Hc2 & Hc3).
  destruct g1 as [s1 b1]. cbn [state buttons] in *. subst s1.
  change (poll_due (ms_loop i) (set_currentVolume v (state g)))
    with (poll_due (ms_loop i) (state g)).
  rewrite Hdue, handleGracePeriod_run. cbv zeta.
  destruct (_ && _ && _); cbn; rewrite ?count_app, ?Hc2, ?Hc3; cbn;
    repeat split; reflexivity.
Qed.

Lemma loop_play_due_time i g :
  poll_due (ms_loop i) (state g) = true ->
  lastNFCCheckTime (state (globals_of (loop_play i g))) = ms_loop i.
Proof.
  intros Hdue. rewrite loop_play_run.
  pose proof (checkVolumeButtons_frame (ms_buttons i) (pin_up i) (pin_down i) g) as Hb.
  cbv zeta in Hb.
  destruct (checkVolumeButtons _ _ _ g) as [[[] g1] l1].
  unfold globals_of, log_of in *. cbn [fst snd] in *.
  destruct Hb as ([v Hs] & _).
  assert (Hdue1 : poll_due (ms_loop i) (state g1) = true) by (rewrite Hs; exact Hdue).
  rewrite Hdue1.
  destruct (checkNFCTag _ _ _ g1) as [[[] g2] l2].
  rewrite handleGracePeriod_run. cbv zeta.
  destruct (_ && _ && _); reflexivity.
Qed.

Lemma loop_play_not_due_reader i i' g :
  poll_due (ms_loop i) (state g) = false ->
  same_but_reader i i' ->
  loop_play i' g = loop_play i g.
Proof.
  intros Hdue (H1 & H2 & H3 & H4 & H5). rewrite !loop_play_run.
  rewrite <- H1, <- H2, <- H3, <- H4, <- H5.
  pose proof (checkVolumeButtons_frame (ms_buttons i) (pin_up i) (pin_down i) g) as Hb.
  cbv zeta in Hb.
  destruct (checkVolumeButtons _ _ _ g) as [[[] g1] l1].
  unfold globals_of in Hb. cbn [fst snd] in Hb.
  destruct Hb as ([v Hs] & _).
  assert (Hdue1 : poll_due (ms_loop i) (state g1) = false) by (rewrite Hs; exact Hdue).
  rewrite Hdue1. reflexivity.
Qed.

Lemma run_ticks_not_due ticks : forall ticks' g,
  Forall (fun j => usub (ms_loop j) (lastNFCCheckTime (state g))
                   < NFC_CHECK_INTERVAL) ticks ->
  Forall2 same_but_reader ticks ticks' ->
  let r := run_ticks ticks g in
  tag_fields (state (fst r)) = tag_fields (state g) /\
  Forall (fun log => count is_read_page log = 0%nat /\
                     count is_play log = 0%nat) (snd r) /\
  run_ticks ticks' g = r.
Proof.
  induction ticks as [|i ticks IH]; intros ticks' g Hall Hsame; cbv zeta.
  - inversion Hsame; subst. cbn. split; [reflexivity|]. split; [constructor | reflexivity].
  - inversion Hsame as [|? i' ? ticks'' Hi Hsame']; subst.
    inversion Hall as [|? ? Hlt Hall']; subst.
    assert (Hdue : poll_due (ms_loop i) (state g) = false).
    { unfold poll_due. rewrite Z.geb_leb. apply Z.leb_gt. exact Hlt. }
    destruct (loop_play_not_due i g Hdue) as (Hf & Hr & Hp).
    cbn [run_ticks fst snd]. rewrite (loop_play_not_due_reader i i' g Hdue Hi).
    set (g1 := globals_of (loop_play i g)) in *.
    assert (Hn : lastNFCCheckTime (state g1) = lastNFCCheckTime (state g)).
    { unfold tag_fields in Hf. congruence. }
    rewrite <- Hn in Hall'.
    destruct (IH ticks'' g1 Hall' Hsame') as (IH1 & IH2 & IH3).
    split; [rewrite IH1; exact Hf|].
    split; [constructor; [split; assumption | exact IH2]|].
    rewrite IH3. reflexivity.
Qed.

(** X5.  An iteration in which the poll is due stores its loop time as
    the poll time.  In the iterations that follow and start less than
    200 ms (modulo 2^32) after that time, the answers of the reader play
    no part: the run ends in the same state with the same logs whatever
    the reader would answer in them, what the firmware holds about the
    tag (stored UID and length, detection time, poll time, presence
    flag) does not change, no page is read and no track is started. *)
Theorem reader_ignored_between_polls :
  forall (i : Tick) (ticks ticks' : list Tick) (g : Globals),
    poll_due (ms_loop i) (state g) = true ->
    Forall (fun j => usub (ms_loop j) (ms_loop i) < NFC_CHECK_INTERVAL) ticks ->
    Forall2 same_but_reader ticks ticks' ->
    let g1 := globals_of (loop_play i g) in
    let r := run_ticks ticks g1 in
    lastNFCCheckTime (state g1) = ms_loop i /\
    tag_fields (state (fst r)) = tag_fields (state g1) /\
    Forall (fun log => count is_read_page log = 0%nat /\
                       count is_play log = 0%nat) (snd r) /\
    run_ticks ticks' g1 = r.
Proof.
  intros i ticks ticks' g Hdue Hall Hsame. cbv zeta.
  pose proof (loop_play_due_time i g Hdue) as Ht.
  split; [exact Ht|].
  apply run_ticks_not_due; [|exact Hsame].
  rewrite Ht. exact Hall.
Qed.

(** The tag of [tag7_present] is polled again at 1200 ms; 50 ms and
    150 ms later another tag is in the field, or none. *)
Lemma reader_ignored_between_polls_witness :
  let g1 := globals_of (loop_play (tick_at 1200 (Some long_uid) None) tag7_present) in
  let ticks := [tick_at 1250 (Some [9; 9; 9; 9]) song7_page;
                tick_at 1350 None None] in
  let r := run_ticks ticks g1 in
  lastNFCCheckTime (state g1) = 1200 /\
  tag_fields (state (fst r)) = tag_fields (state g1) /\
  Forall (fun log => count is_read_page log = 0%nat /\
                     count is_play log = 0%nat) (snd r) /\
  run_ticks [tick_at 1250 None None; tick_at 1350 (Some short_uid) None] g1 = r.
Proof.
  apply (reader_ignored_between_polls
           (tick_at 1200 (Some long_uid) None)
           [tick_at 1250 (Some [9; 9; 9; 9]) song7_page; tick_at 1350 None None]
           [tick_at 1250 None None; tick_at 1350 (Some short_uid) None]
           tag7_present).
  - reflexivity.
  - constructor; [apply Z.ltb_lt; reflexivity|].
    constructor; [apply Z.ltb_lt; reflexivity|]. constructor.
  - constructor; [repeat split|]. constructor; [repeat split|]. constructor.
Defined.

(** ** Buttons: held down, and both at once *)

Lemma check_sample_up_held x g :
  lastUpState (buttons g) = true ->
  sample_up x = LOW -> sample_down x = HIGH ->
  check_sample x g =
  (tt, mkGlobals (state g) (set_lastDownState false (buttons g)), []).
Proof.
  intros Hheld Hu Hd. unfold check_sample.
  rewrite checkVolumeButtons_run, volumeUpBlock_run, Hu, Hd. cbv zeta.
  rewrite Hheld. cbn. rewrite volumeDownBlock_run. cbn.
  destruct g as [s b]. destruct b. cbn in *. subst. reflexivity.
Qed.

Lemma check_sample_down_held x g :
  lastDownState (buttons g) = true ->
  sample_up x = HIGH -> sample_down x = LOW ->
  check_sample x g =
  (tt, mkGlobals (state g) (set_lastUpState false (buttons g)), []).
Proof.
  intros Hheld Hu Hd. unfold check_sample.
  rewrite checkVolumeButtons_run, volumeUpBlock_run, Hu, Hd. cbv zeta.
  cbn. rewrite volumeDownBlock_run. cbn. rewrite Hheld. cbn.
  destruct g as [s b]. destruct b. cbn in *. subst. reflexivity.
Qed.

(** X9.  A button that is held down does not repeat: once the stored
    sample of a button is "pressed" (as it is at start-up and after
    every sample taken with the button down), samples that keep showing
    it pressed, the other button released, send no volume command and
    leave the volume unchanged, however much time passes.  The same
    holds with the two buttons exchanged. *)
Theorem held_button_does_not_repeat :
  (forall (samples : list Sample) (g : Globals),
     lastUpState (buttons g) = true ->
     Forall (fun x => sample_up x = LOW /\ sample_down x = HIGH) samples ->
     let r := mseq (map check_sample samples) g in
     log_of r = [] /\ state (globals_of r) = state g) /\
  (forall (samples : list Sample) (g : Globals),
     lastDownState (buttons g) = true ->
     Forall (fun x => sample_up x = HIGH /\ sample_down x = LOW) samples ->
     let r := mseq (map check_sample samples) g in
     log_of r = [] /\ state (globals_of r) = state g).
Proof.
  split.
  - induction samples as [|x xs IH]; intros g Hheld Hall; cbv zeta; [cbn; auto|].
    inversion Hall as [|? ? [Hu Hd] Hall']; subst.
    cbn [map mseq]. rewrite bind_run, (check_sample_up_held x g Hheld Hu Hd).
    set (g1 := mkGlobals _ _).
    specialize (IH g1 Hheld Hall'). cbv zeta in IH.
    destruct (mseq (map check_sample xs) g1) as [[[] g2] l2].
    unfold globals_of, log_of in *. cbn [fst snd app] in *. exact IH.
  - induction samples as [|x xs IH]; intros g Hheld Hall; cbv zeta; [cbn; auto|].
    inversion Hall as [|? ? [Hu Hd] Hall']; subst.
    cbn [map mseq]. rewrite bind_run, (check_sample_down_held x g Hheld Hu Hd).
    set (g1 := mkGlobals _ _).
    specialize (IH g1 Hheld Hall'). cbv zeta in IH.
    destruct (mseq (map check_sample xs) g1) as [[[] g2] l2].
    unfold globals_of, log_of in *. cbn [fst snd app] in *. exact IH.
Qed.

(** The "up" button is held down from start-up on, for ten seconds. *)
Lemma held_button_does_not_repeat_witness :
  let r := mseq (map check_sample
                   [mkSample 1000 LOW HIGH; mkSample 5000 LOW HIGH;
                    mkSample 11000 LOW HIGH]) globals_init in
  log_of r = [] /\ state (globals_of r) = state globals_init.
Proof.
  destruct held_button_does_not_repeat as [Hup _].
  apply (Hup [mkSample 1000 LOW HIGH; mkSample 5000 LOW HIGH;
              mkSample 11000 LOW HIGH] globals_init).
  - reflexivity.
  - repeat (constructor; [split; reflexivity|]). constructor.
Defined.

(** X10.  When both buttons are accepted in the same call the "up" press
    is applied first and the "down" press second, each with its own
    volume command: from a level below 30 the level goes up by one and
    comes back, from 30 it stays 30 and then drops to 29. *)
Theorem both_buttons_together :
  forall (g : Globals) (now : Z),
    volume_in_range (currentVolume (state g)) ->
    press_event true (lastUpState (buttons g)) now (lastUpPress (buttons g)) ->
    press_event true (lastDownState (buttons g)) now (lastDownPress (buttons g)) ->
    let v := currentVolume (state g) in
    let r := checkVolumeButtons now LOW LOW g in
    log_of r = [DfVolume (Z.min MAX_VOLUME (v + 1));
                DfVolume (Z.min MAX_VOLUME (v + 1) - 1)] /\
    currentVolume (state (globals_of r)) =
      (if v =? MAX_VOLUME then MAX_VOLUME - 1 else v).
Proof.
  intros g now Hv Hup Hdown. cbv zeta.
  apply press_event_test in Hup. apply press_event_test in Hdown.
  rewrite checkVolumeButtons_run, volumeUpBlock_run. cbv zeta.
  cbn [Bool.eqb LOW]. rewrite Hup, volumeDownBlock_run. cbv zeta.
  cbn [state buttons lastDownState lastDownPress set_lastUpState set_lastUpPress
       currentVolume set_currentVolume Bool.eqb LOW].
  rewrite Hdown. rewrite (clamp_up _ Hv).
  assert (Hv1 : volume_in_range (Z.min MAX_VOLUME (currentVolume (state g) + 1))).
  { unfold volume_in_range, MIN_VOLUME, MAX_VOLUME in *. lia. }
  rewrite (clamp_down _ Hv1).
  unfold globals_of, log_of. cbn.
  unfold volume_in_range, MIN_VOLUME, MAX_VOLUME in *.
  split.
  - do 2 f_equal. f_equal. lia.
  - destruct (currentVolume (state g) =? 30) eqn:E; bool_facts; lia.
Qed.

Lemma both_buttons_together_witness :
  let g := mkGlobals (set_currentVolume 30 state_init)
             (set_lastDownState false (set_lastUpState false buttons_init)) in
  let r := checkVolumeButtons 1000 LOW LOW g in
  log_of r = [DfVolume 30; DfVolume 29] /\
  currentVolume (state (globals_of r)) = 29.
Proof.
  apply (both_buttons_together
           (mkGlobals (set_currentVolume 30 state_init)
              (set_lastDownState false (set_lastUpState false buttons_init)))
           1000).
  - unfold volume_in_range, MIN_VOLUME, MAX_VOLUME. cbn. lia.
  - unfold press_event. split; [reflexivity|]. split; [reflexivity|].
    apply Z.gtb_gt. reflexivity.
  - unfold press_event. split; [reflexivity|]. split; [reflexivity|].
    apply Z.gtb_gt. reflexivity.
Defined.

(** ** Elapsed times across a counter overflow *)

Lemma usub_elapsed t d :
  0 <= t < ULONG_MOD -> 0 <= d < ULONG_MOD ->
  usub ((t + d) mod ULONG_MOD) t = d.
Proof.
  unfold usub, ULONG_MOD. intros Ht Hd.
  rewrite Zminus_mod_idemp_l.
  replace (t + d - t) with d by lia. apply Z.mod_small. lia.
Qed.

(** X8.  The three timers work on the time that really passed, also
    when [millis()] wrapped around in between: if the clock reads
    [(t + d) mod 2^32], where [t] is the stored time and [d < 2^32] the
    milliseconds since, then [handleGracePeriod] (tag absent, song
    playing) stops the song exactly when [d > 2000], a falling edge of
    the "up" button is accepted exactly when [d > 200], and the reader
    is polled exactly when [d >= 200]. *)
Theorem timers_survive_overflow :
  forall (g : Globals) (t d : Z),
    0 <= t < ULONG_MOD -> 0 <= d < ULONG_MOD ->
    let now := (t + d) mod ULONG_MOD in
    (lastTagDetectionTime (state g) = t ->
     isTagPresent (state g) = false -> isSongPlaying (state g) = true ->
     count is_stop (log_of (handleGracePeriod now g)) =
       (if d >? TAG_GRACE_PERIOD then 1 else 0)%nat) /\
    (lastUpPress (buttons g) = t -> lastUpState (buttons g) = false ->
     count is_volume (log_of (volumeUpBlock now true g)) =
       (if d >? BUTTON_DEBOUNCE_DELAY then 1 else 0)%nat) /\
    (lastNFCCheckTime (state g) = t ->
     poll_due now (state g) = (d >=? NFC_CHECK_INTERVAL)).
Proof.
  intros g t d Ht Hd now. subst now. split; [|split].
  - intros Hlast Hpres Hplay.
    rewrite handleGracePeriod_run. cbv zeta.
    rewrite Hlast, Hpres, Hplay, (usub_elapsed t d Ht Hd). cbn.
    destruct (d >? TAG_GRACE_PERIOD); reflexivity.
  - intros Hlast Hst.
    rewrite volumeUpBlock_run. cbv zeta.
    rewrite Hlast, Hst, (usub_elapsed t d Ht Hd). cbn.
    destruct (d >? BUTTON_DEBOUNCE_DELAY); reflexivity.
  - intros Hlast. unfold poll_due.
    rewrite Hlast, (usub_elapsed t d Ht Hd). reflexivity.
Qed.

(** The tag was last seen 1000 ms before the counter wrapped; the clock
    now reads 1500, that is 2500 ms later. *)
Lemma timers_survive_overflow_witness :
  let g := mkGlobals
             (set_isTagPresent false
                (set_lastTagDetectionTime (ULONG_MOD - 1000) (state tag7_present)))
             (buttons tag7_present) in
  count is_stop (log_of (handleGracePeriod 1500 g)) = 1%nat.
Proof.
  pose proof (timers_survive_overflow
    (mkGlobals
       (set_isTagPresent false
          (set_lastTagDetectionTime (ULONG_MOD - 1000) (state tag7_present)))
       (buttons tag7_present))
    (ULONG_MOD - 1000) 2500) as H.
  destruct H as [H _].
  - unfold ULONG_MOD. lia.
  - unfold ULONG_MOD. lia.
  - apply H; reflexivity.
Defined.

(** ** Programming a tag *)

(** X7.  The wait for a tag gives up after its 50 attempts and not
    before: it succeeds exactly when one of the attempts 0..49 sees a
    tag (in general, one of the [fuel] attempts from [i] on). *)
Theorem waitForTag_bounded :
  forall (detect : nat -> bool),
    (forall i fuel : nat,
       waitForTag detect i fuel = true <->
       exists k : nat, (i <= k < i + fuel)%nat /\ detect k = true) /\
    (waitForTag detect 0 50 = true <->
     exists k : nat, (k < 50)%nat /\ detect k = true).
Proof.
  intros detect.
  assert (Hgen : forall fuel i,
    waitForTag detect i fuel = true <->
    exists k : nat, (i <= k < i + fuel)%nat /\ detect k = true).
  { induction fuel as [|fuel IH]; intros i; cbn [waitForTag].
    - split; [discriminate | intros (k & Hk & _); lia].
    - destruct (detect i) eqn:Ed.
      + split; [intros _; exists i; split; [lia | exact Ed] | reflexivity].
      + rewrite IH. split; intros (k & Hk & Hd); exists k; split; try exact Hd.
        * lia.
        * destruct (Nat.eq_dec k i) as [-> | Hne]; [congruence | lia]. }
  split; [intros i fuel; apply Hgen|].
  rewrite Hgen. split; intros (k & Hk & Hd); exists k; split; try exact Hd; lia.
Qed.

Lemma writeSongNumber_log songNum detect writeOk mem :
  snd (writeSongNumber songNum detect writeOk mem) = [] \/
  snd (writeSongNumber songNum detect writeOk mem)
    = [NfcWritePage 4 [chr_S; chr_O; chr_N; songNum]].
Proof.
  unfold writeSongNumber. destruct (waitForTag detect 0 50); cbn; auto.
Qed.

(** ** Operator commands *)

Lemma readSongTag_run detect page g :
  readSongTag detect page g =
  if waitForTag detect 0 50 then
    ((if song_of page =? -1 then None else Some (song_of page)), g, [NfcReadPage 4])
  else (None, g, []).
Proof.
  unfold readSongTag. cbv zeta.
  destruct (waitForTag detect 0 50); cbn [negb]; [|reflexivity].
  rewrite bind_run, readSongNumberFromTag_run.
  destruct (song_of page =? -1); reflexivity.
Qed.

Lemma handleSerialCommands_frame toInt inp mode mem g :
  let r := handleSerialCommands toInt inp mode mem g in
  globals_of r = g /\
  (fst (fst (value_of r)) = PLAY_MODE \/ fst (fst (value_of r)) = mode) /\
  playback_cmds (log_of r) = [] /\
  count is_volume (log_of r) = 0%nat.
Proof.
  cbv zeta. unfold handleSerialCommands.
  destruct (serial_line inp) as [cmd|]; [|cbn; auto].
  destruct (String.prefix "write " cmd).
  - cbv zeta. destruct (_ && _); [|cbn; auto].
    rewrite !bind_run. unfold emit_all. cbn.
    pose proof (writeSongNumber_log (to_uint8
      (toInt (String.substring 6 (String.length cmd - 6) cmd)))
      (cmd_detect inp) (cmd_writeOk inp) mem) as [Hl | Hl];
      rewrite Hl; cbn; auto.
  - destruct (String.eqb cmd "read").
    + rewrite bind_run, readSongTag_run.
      destruct (waitForTag (cmd_detect inp) 0 50); cbn; auto.
    + destruct (String.eqb cmd "playmode"); [cbn; auto|].
      destruct (0 <? String.length cmd)%nat; cbn; auto.
Qed.

(** X11.  Whatever line arrives on the serial port, the command handler
    started in [PLAY_MODE] returns in [PLAY_MODE], leaves the globals
    [state] and [buttons] untouched and sends no play, stop or volume
    command; so every iteration of [loop] runs the play-mode body, on
    the globals as the iteration found them, and ends in [PLAY_MODE]. *)
Theorem commands_return_to_play_mode :
  forall (toInt : String.string -> Z) (inp : CmdInput) (i : Tick)
         (mem : gmap Z (list Z)) (g : Globals),
    let c := handleSerialCommands toInt inp PLAY_MODE mem g in
    let r := loop toInt inp i PLAY_MODE mem g in
    fst (fst (value_of c)) = PLAY_MODE /\
    globals_of c = g /\
    playback_cmds (log_of c) = [] /\
    count is_volume (log_of c) = 0%nat /\
    value_of r = value_of c /\
    globals_of r = globals_of (loop_play i g) /\
    log_of r = log_of c ++ log_of (loop_play i g).
Proof.
  intros toInt inp i mem g c r. subst c r.
  destruct (handleSerialCommands_frame toInt inp PLAY_MODE mem g)
    as (Hg & Hm & Hp & Hv).
  assert (Hmode : fst (fst (value_of (handleSerialCommands toInt inp PLAY_MODE mem g)))
                  = PLAY_MODE) by (destruct Hm; assumption).
  unfold loop. rewrite bind_run.
  destruct (handleSerialCommands toInt inp PLAY_MODE mem g) as [[v g1] l1].
  unfold value_of, globals_of, log_of in *. cbn [fst snd] in *. subst g1.
  rewrite Hmode, bind_run.
  destruct (loop_play i g) as [[[] g2] l2]. cbn.
  rewrite app_nil_r. auto 10.
Qed.

(** X12.  Over all command lines, the tag is written exactly when the
    line starts with "write ", the number [toInt] reads after it is in
    1..99 and a tag is seen within the 50 attempts: then, and only then,
    the log holds a page write, and it is the one write of
    ['S';'O';'N';n] to page 4; no command sends more than one command to
    the tag memory; the tag memory comes back changed only by that
    write, when it succeeded; and a "write" line whose number is out of
    range ends in the range error with the mode, the memory and the
    globals as they were. *)
Theorem tag_written_exactly_when :
  forall (toInt : String.string -> Z) (inp : CmdInput) (mode : Mode)
         (mem : gmap Z (list Z)) (g : Globals),
    let c := handleSerialCommands toInt inp mode mem g in
    let mem' := snd (fst (value_of c)) in
    (forall (p : Z) (data : list Z),
       In (NfcWritePage p data) (log_of c) <->
       exists cmd : String.string,
         serial_line inp = Some cmd /\
         String.prefix "write " cmd = true /\
         1 <= toInt (String.substring 6 (String.length cmd - 6) cmd) <= 99 /\
         waitForTag (cmd_detect inp) 0 50 = true /\
         p = 4 /\
         data = [chr_S; chr_O; chr_N;
                 toInt (String.substring 6 (String.length cmd - 6) cmd)]) /\
    (length (log_of c) <= 1)%nat /\
    (mem' <> mem ->
     cmd_writeOk inp = true /\
     exists (p : Z) (data : list Z),
       In (NfcWritePage p data) (log_of c) /\ mem' = <[p := data]> mem) /\
    (forall cmd : String.string,
       serial_line inp = Some cmd ->
       String.prefix "write " cmd = true ->
       ~ (1 <= toInt (String.substring 6 (String.length cmd - 6) cmd) <= 99) ->
       c = ((mode, mem, RangeError), g, [])).
Proof.
  intros toInt inp mode mem g c mem'. subst mem' c.
  unfold handleSerialCommands.
  destruct (serial_line inp) as [cmd|] eqn:Hline.
  2:{ unfold value_of, log_of. cbn. split; [|split; [lia|split]].
      - intros p data. split; [intros [] | intros (cmd & Hc & _); discriminate Hc].
      - intros H. exfalso. apply H. reflexivity.
      - intros cmd Hc. discriminate Hc. }
  destruct (String.prefix "write " cmd) eqn:Hpre.
  - cbv zeta.
    set (n := toInt (String.substring 6 (String.length cmd - 6) cmd)).
    destruct ((n >=? 1) && (n <=? 99)) eqn:Hr.
    + assert (Hn : 1 <= n <= 99) by (bool_facts; lia).
      assert (Hu : to_uint8 n = n) by (unfold to_uint8; apply Z.mod_small; lia).
      rewrite Hu, !bind_run. unfold emit_all, writeSongNumber.
      destruct (waitForTag (cmd_detect inp) 0 50) eqn:Hw;
        unfold value_of, log_of; cbn [negb fst snd app mret M_ret].
      * unfold mret, M_ret. cbn [fst snd app].
        split; [|split; [cbn; lia|split]].
        -- intros p data. split.
           ++ intros [Heq | []]. injection Heq as <- <-.
              exists cmd. fold n. auto 10.
           ++ intros (cmd' & Hc & _ & _ & _ & -> & ->).
              injection Hc as <-. fold n. left. reflexivity.
        -- intros Hne. unfold ntag2xx_WritePage in *.
           destruct (cmd_writeOk inp); cbn [fst] in *; [|exfalso; apply Hne; reflexivity].
           split; [reflexivity|]. exists 4, [chr_S; chr_O; chr_N; n].
           split; [left; reflexivity | reflexivity].
        -- intros cmd' Hc _ Hout. injection Hc as <-. fold n in Hout. tauto.
      * unfold mret, M_ret. cbn [fst snd app].
        split; [|split; [cbn; lia|split]].
        -- intros p data. split; [intros []|].
           intros (cmd' & Hc & _ & _ & Hw' & _). congruence.
        -- intros Hne. exfalso. apply Hne. reflexivity.
        -- intros cmd' Hc _ Hout. injection Hc as <-. fold n in Hout. tauto.
    + unfold value_of, log_of. cbn [fst snd mret M_ret]. unfold mret, M_ret.
      cbn [fst snd]. split; [|split; [cbn; lia|split]].
      * intros p data. split; [intros []|].
        intros (cmd' & Hc & _ & Hn & _). injection Hc as <-. fold n in Hn.
        bool_facts; lia.
      * intros Hne. exfalso. apply Hne. reflexivity.
      * intros cmd' Hc _ _. reflexivity.
  - assert (Hnw : forall p data (log : list Effect),
              (log = [] \/ log = [NfcReadPage 4]) ->
              (In (NfcWritePage p data) log <->
               exists cmd' : String.string,
                 Some cmd = Some cmd' /\
                 String.prefix "write " cmd' = true /\
                 1 <= toInt (String.substring 6 (String.length cmd' - 6) cmd') <= 99 /\
                 waitForTag (cmd_detect inp) 0 50 = true /\
                 p = 4 /\
                 data = [chr_S; chr_O; chr_N;
                         toInt (String.substring 6 (String.length cmd' - 6) cmd')])).
    { intros p data log Hlog. split.
      - destruct Hlog as [-> | ->]; [intros [] | intros [H | []]; discriminate H].
      - intros (cmd' & Hc & Hp & _). injection Hc as <-. congruence. }
    assert (Hrest : forall cmd' : String.string,
              Some cmd = Some cmd' -> String.prefix "write " cmd' = true -> False).
    { intros cmd' Hc Hp. injection Hc as <-. congruence. }
    destruct (String.eqb cmd "read").
    + rewrite bind_run, readSongTag_run.
      destruct (waitForTag (cmd_detect inp) 0 50);
        unfold value_of, log_of; cbn [fst snd app]; unfold mret, M_ret;
        cbn [fst snd app];
        (split; [intros p data; apply Hnw; auto|]);
        (split; [cbn; lia|]);
        (split; [intros Hne; exfalso; apply Hne; reflexivity|]);
        intros cmd' Hc Hp; exfalso; exact (Hrest cmd' Hc Hp).
    + destruct (String.eqb cmd "playmode");
        [|destruct (0 <? String.length cmd)%nat];
        unfold value_of, log_of; cbn [fst snd]; unfold mret, M_ret; cbn [fst snd];
        (split; [intros p data; apply Hnw; auto|]);
        (split; [cbn; lia|]);
        (split; [intros Hne; exfalso; apply Hne; reflexivity|]);
        intros cmd' Hc Hp; exfalso; exact (Hrest cmd' Hc Hp).
Qed.

(** "write 100" is turned down; "write 7" with a tag at the third
    attempt writes page 4. *)
Lemma tag_written_exactly_when_witness :
  handleSerialCommands (digits_value 0) write_100 PLAY_MODE ∅ globals_init
    = ((PLAY_MODE, ∅, RangeError), globals_init, []) /\
  In (NfcWritePage 4 [chr_S; chr_O; chr_N; 7])
    (log_of (handleSerialCommands (digits_value 0) write_7 PLAY_MODE ∅ globals_init)).
Proof.
  split.
  - destruct (tag_written_exactly_when (digits_value 0) write_100 PLAY_MODE ∅
                globals_init) as (_ & _ & _ & H).
    apply (H "write 100"%string); [reflexivity | reflexivity|].
    intros [_ Hle]. apply Z.leb_le in Hle. vm_compute in Hle. discriminate Hle.
  - destruct (tag_written_exactly_when (digits_value 0) write_7 PLAY_MODE ∅
                globals_init) as (H & _).
    apply H. exists "write 7"%string.
    split; [reflexivity|]. split; [reflexivity|].
    split; [vm_compute; split; discriminate|]. auto.
Defined.

Lemma song_of_valid page n :
  song_of page = n /\ n <> -1 <->
  exists data, page = Some data /\
    nth 0 data 0 = chr_S /\ nth 1 data 0 = chr_O /\ nth 2 data 0 = chr_N /\
    nth 3 data 0 = n /\ 1 <= n <= 99.
Proof.
  split.
  - intros [Hs Hn]. destruct page as [data|].
    + exists data. split; [reflexivity|].
      revert Hs. unfold song_of. munfold. cbn.
      destruct ((nth 0 data 0 =? chr_S) && (nth 1 data 0 =? chr_O) &&
                (nth 2 data 0 =? chr_N)) eqn:Em; cbn; [|intros; congruence].
      destruct ((nth 3 data 0 >=? 1) && (nth 3 data 0 <=? 99)) eqn:Er; cbn;
        [|intros; congruence].
      intros <-. bool_facts. repeat split; auto; lia.
    + exfalso. apply Hn. rewrite <- Hs. reflexivity.
  - intros (data & -> & H0 & H1 & H2 & H3 & Hr).
    split; [|lia]. unfold song_of. munfold. cbn.
    rewrite H0, H1, H2, H3, !Z.eqb_refl. cbn.
    destruct (n >=? 1) eqn:E1; destruct (n <=? 99) eqn:E2; bool_facts;
      cbn; try reflexivity; lia.
Qed.

Lemma handleSerialCommands_read toInt inp mode mem g :
  serial_line inp = Some "read"%string ->
  handleSerialCommands toInt inp mode mem g =
  (printed ← readSongTag (cmd_detect inp)
               (ntag2xx_ReadPage 4 (cmd_readOk inp) mem);
   mret (PLAY_MODE, mem, ReadRun printed)) g.
Proof.
  intros Hline. unfold handleSerialCommands. rewrite Hline.
  change (String.prefix "write " "read") with false.
  change (String.eqb "read" "read") with true.
  reflexivity.
Qed.

(** X14.  The "read" command never changes the tag: it returns in
    [PLAY_MODE] with the tag memory and the globals as they were, and
    sends at most one read of page 4.  It prints a song number [n]
    exactly when a tag was seen within the 50 attempts, the page read
    succeeded, and page 4 holds the marker 'S','O','N' followed by [n]
    with [n] in 1..99. *)
Theorem read_command_reports :
  forall (toInt : String.string -> Z) (inp : CmdInput) (mode : Mode)
         (mem : gmap Z (list Z)) (g : Globals),
    serial_line inp = Some "read"%string ->
    let c := handleSerialCommands toInt inp mode mem g in
    fst (value_of c) = (PLAY_MODE, mem) /\
    globals_of c = g /\
    (log_of c = [] \/ log_of c = [NfcReadPage 4]) /\
    (forall n : Z,
       snd (value_of c) = ReadRun (Some n) <->
       waitForTag (cmd_detect inp) 0 50 = true /\
       cmd_readOk inp = true /\
       exists data, mem !! 4 = Some data /\
         nth 0 data 0 = chr_S /\ nth 1 data 0 = chr_O /\ nth 2 data 0 = chr_N /\
         nth 3 data 0 = n /\ 1 <= n <= 99).
Proof.
  intros toInt inp mode mem g Hline c. subst c.
  rewrite (handleSerialCommands_read toInt inp mode mem g Hline).
  rewrite bind_run, readSongTag_run.
  destruct (waitForTag (cmd_detect inp) 0 50) eqn:Hw;
    unfold value_of, globals_of, log_of; cbn [fst snd app].
  - split; [reflexivity|]. split; [reflexivity|]. split; [right; reflexivity|].
    intros n.
    pose proof (song_of_valid (ntag2xx_ReadPage 4 (cmd_readOk inp) mem) n) as Hv.
    destruct (song_of (ntag2xx_ReadPage 4 (cmd_readOk inp) mem) =? -1) eqn:E;
      bool_facts.
    + split; [discriminate|]. intros (_ & Hok & Hdata).
      rewrite Hok in *. unfold ntag2xx_ReadPage in *.
      apply Hv in Hdata. destruct Hdata as [Hs Hn]. congruence.
    + split.
      * intros Heq. injection Heq as Heq.
        assert (Hn : n <> -1) by (rewrite <- Heq; exact E).
        destruct Hv as [Hv _]. destruct (Hv (conj Heq Hn)) as (data & Hp & Hrest).
        unfold ntag2xx_ReadPage in Hp. destruct (cmd_readOk inp); [|discriminate].
        split; [reflexivity|]. split; [reflexivity|]. exists data. auto.
      * intros (_ & Hok & Hdata). rewrite Hok in *. unfold ntag2xx_ReadPage in *.
        apply Hv in Hdata. destruct Hdata as [Hs _]. rewrite Hs. reflexivity.
  - split; [reflexivity|]. split; [reflexivity|]. split; [left; reflexivity|].
    intros n. split; [discriminate | intros [H _]; discriminate H].
Qed.

Lemma read_command_reports_witness :
  let mem : gmap Z (list Z) := {[ 4 := [chr_S; chr_O; chr_N; 7] ]} in
  let c := handleSerialCommands (digits_value 0) read_cmd PLAY_MODE mem globals_init in
  fst (value_of c) = (PLAY_MODE, mem) /\
  globals_of c = globals_init /\
  (log_of c = [] \/ log_of c = [NfcReadPage 4]) /\
  (forall n : Z,
     snd (value_of c) = ReadRun (Some n) <->
     waitForTag (cmd_detect read_cmd) 0 50 = true /\
     cmd_readOk read_cmd = true /\
     exists data, mem !! 4 = Some data /\
       nth 0 data 0 = chr_S /\ nth 1 data 0 = chr_O /\ nth 2 data 0 = chr_N /\
       nth 3 data 0 = n /\ 1 <= n <= 99).
Proof.
  apply (read_command_reports (digits_value 0) read_cmd PLAY_MODE
           {[ 4 := [chr_S; chr_O; chr_N; 7] ]} globals_init).
  reflexivity.
Defined.

(** X13.  A "write" command with a number [n] in 1..99, a tag seen
    within the 50 attempts and a successful page write returns in
    [PLAY_MODE] having sent exactly one write of ['S';'O';'N';n] to
    page 4, with every other page and the globals unchanged.  The tag so
    programmed then does what it was programmed for: a "read" command
    that sees it prints [n], and a play-mode iteration whose poll
    detects it as a new tag while nothing is playing starts track [n]. *)
Theorem write_command_programs_tag :
  forall (toInt : String.string -> Z) (inp : CmdInput) (cmd : String.string)
         (n : Z) (mode : Mode) (mem : gmap Z (list Z)) (g : Globals),
    serial_line inp = Some cmd ->
    String.prefix "write " cmd = true ->
    toInt (String.substring 6 (String.length cmd - 6) cmd) = n ->
    1 <= n <= 99 ->
    waitForTag (cmd_detect inp) 0 50 = true ->
    cmd_writeOk inp = true ->
    let c := handleSerialCommands toInt inp mode mem g in
    let mem' := snd (fst (value_of c)) in
    value_of c = (PLAY_MODE, <[4 := [chr_S; chr_O; chr_N; n]]> mem, WriteRun) /\
    log_of c = [NfcWritePage 4 [chr_S; chr_O; chr_N; n]] /\
    globals_of c = g /\
    (forall p : Z, p <> 4 -> mem' !! p = mem !! p) /\
    (forall (inp' : CmdInput) (mode' : Mode) (g' : Globals),
       serial_line inp' = Some "read"%string ->
       waitForTag (cmd_detect inp') 0 50 = true ->
       cmd_readOk inp' = true ->
       snd (value_of (handleSerialCommands toInt inp' mode' mem' g'))
         = ReadRun (Some n)) /\
    (forall (i : Tick) (uid : list Z) (g' : Globals),
       nfc_target i = Some uid ->
       nfc_page i = ntag2xx_ReadPage 4 true mem' ->
       poll_due (ms_loop i) (state g') = true ->
       isNewTag uid (state g') = true ->
       isSongPlaying (state g') = false ->
       let r := loop_play i g' in
       playback_cmds (log_of r) = [DfPlay n] /\
       isSongPlaying (state (globals_of r)) = true /\
       currentTrack (state (globals_of r)) = n).
Proof.
  intros toInt inp cmd n mode mem g Hline Hpre Hint Hn Hw Hok c mem'.
  subst mem' c.
  assert (Hu : to_uint8 n = n) by (unfold to_uint8; apply Z.mod_small; lia).
  assert (Hc : handleSerialCommands toInt inp mode mem g =
    ((PLAY_MODE, <[4 := [chr_S; chr_O; chr_N; n]]> mem, WriteRun), g,
     [NfcWritePage 4 [chr_S; chr_O; chr_N; n]])).
  { unfold handleSerialCommands. rewrite Hline, Hpre. cbv zeta. rewrite Hint.
    assert (Hr : (n >=? 1) && (n <=? 99) = true).
    { apply andb_true_iff. split; [rewrite Z.geb_leb|]; apply Z.leb_le; lia. }
    rewrite Hr, Hu, Hok, (writeSongNumber_run n (cmd_detect inp) mem Hw).
    reflexivity. }
  rewrite Hc. unfold value_of, globals_of, log_of. cbn [fst snd].
  assert (Hpage : ntag2xx_ReadPage 4 true (<[4 := [chr_S; chr_O; chr_N; n]]> mem)
                  = Some [chr_S; chr_O; chr_N; n]).
  { unfold ntag2xx_ReadPage. apply lookup_insert_eq. }
  split; [reflexivity|]. split; [reflexivity|]. split; [reflexivity|].
  split; [intros p Hp; apply lookup_insert_ne; congruence|].
  split.
  - intros inp' mode' g' Hline' Hw' Hok'.
    rewrite (handleSerialCommands_read toInt inp' mode' _ g' Hline').
    rewrite bind_run, readSongTag_run, Hw', Hok', Hpage, (song_of_record n Hn).
    assert (En : (n =? -1) = false) by (apply Z.eqb_neq; lia).
    rewrite En. reflexivity.
  - intros i uid g' Htag Hpg Hdue Hnew Hplay.
    assert (Hsong : song_of (nfc_page i) = n).
    { rewrite Hpg, Hpage. apply song_of_record, Hn. }
    destruct (loop_play_new_tag i g' uid n Htag Hdue Hnew Hsong Hn)
      as (H1 & H2 & H3 & _).
    rewrite Hplay in H1. cbv zeta. auto.
Qed.

(** "write 7" with an empty tag seen at the third attempt. *)
Lemma write_command_programs_tag_witness :
  let c := handleSerialCommands (digits_value 0) write_7 PLAY_MODE ∅ globals_init in
  value_of c = (PLAY_MODE, <[4 := [chr_S; chr_O; chr_N; 7]]> ∅, WriteRun) /\
  log_of c = [NfcWritePage 4 [chr_S; chr_O; chr_N; 7]] /\
  globals_of c = globals_init.
Proof.
  destruct (write_command_programs_tag (digits_value 0) write_7 "write 7"%string
              7 PLAY_MODE ∅ globals_init) as (H1 & H2 & H3 & _).
  - reflexivity.
  - reflexivity.
  - reflexivity.
  - lia.
  - reflexivity.
  - reflexivity.
  - auto.
Defined.

(** ** Printing a UID *)

Lemma bytes_checked (f : Z -> bool) :
  forallb f (map Z.of_nat (seq 0 256)) = true ->
  forall b, is_byte b -> f b = true.
Proof.
  intros Hall b [H0 H1].
  rewrite forallb_forall in Hall. apply Hall.
  apply in_map_iff. exists (Z.to_nat b). split; [lia|].
  apply in_seq. lia.
Qed.

(** One byte as the loop prints it, after [toUpperCase]. *)
Lemma byte_text b :
  is_byte b ->
  toUpperCase (String.append (if b <? 16 then "0" else String.EmptyString) (String_HEX b))
  = hex2 b.
Proof.
  intros Hb.
  apply (bytes_checked (fun b =>
    String.eqb
      (toUpperCase (String.append (if b <? 16 then "0" else String.EmptyString) (String_HEX b)))
      (hex2 b))) in Hb; [apply String.eqb_eq, Hb|].
  vm_compute. reflexivity.
Qed.

(** Unfolds [String.append] on strings that start with a character. *)
Ltac sapp :=
  repeat change (String.append (String.String ?x ?a) ?s)
    with (String.String x (String.append a s)) in *;
  repeat change (String.append String.EmptyString ?s) with s in *.

Lemma sapp_assoc (a b c : String.string) :
  String.append (String.append a b) c = String.append a (String.append b c).
Proof.
  induction a as [|x a IH]; [reflexivity|].
  sapp. cbn [String.length toUpperCase Nat.add]. sapp. f_equal. exact IH.
Qed.

Lemma sapp_nil_r (a : String.string) : String.append a String.EmptyString = a.
Proof.
  induction a as [|x a IH]; [reflexivity|].
  sapp. cbn [String.length toUpperCase Nat.add]. sapp. f_equal. exact IH.
Qed.

Lemma slength_app (a b : String.string) :
  String.length (String.append a b) = (String.length a + String.length b)%nat.
Proof.
  induction a as [|x a IH]; [reflexivity|].
  sapp. cbn [String.length toUpperCase Nat.add]. sapp. f_equal. exact IH.
Qed.

Lemma toUpperCase_app (a b : String.string) :
  toUpperCase (String.append a b)
  = String.append (toUpperCase a) (toUpperCase b).
Proof.
  induction a as [|x a IH]; [reflexivity|].
  sapp. cbn [String.length toUpperCase Nat.add]. sapp. f_equal. exact IH.
Qed.

Lemma uid_text_cons b l :
  uid_text (b :: l) =
  String.append (hex2 b)
    (match l with
     | [] => String.EmptyString
     | _ :: _ => String.append ":" (uid_text l)
     end).
Proof.
  unfold uid_text. destruct l as [|c l]; cbn [map String.concat].
  - rewrite sapp_nil_r. reflexivity.
  - reflexivity.
Qed.

(** The loop from the middle of the buffer. *)
Lemma uidToString_from_text l : forall (pre : list Z) (result : String.string),
  Forall is_byte l ->
  toUpperCase (uidToString_from (pre ++ l) (length pre) (length l) result) =
  String.append (toUpperCase result)
    (match l with
     | [] => String.EmptyString
     | _ :: _ =>
         String.append (if (0 <? length pre)%nat then ":" else String.EmptyString)
           (uid_text l)
     end).
Proof.
  induction l as [|b l IH]; intros pre result Hall.
  - cbn. rewrite sapp_nil_r. reflexivity.
  - inversion Hall as [|? ? Hb Hall']; subst.
    cbn [length uidToString_from]. rewrite nth_middle.
    replace (pre ++ b :: l) with ((pre ++ [b]) ++ l)
      by (rewrite <- app_assoc; reflexivity).
    replace (S (length pre)) with (length (pre ++ [b]))
      by (rewrite length_app; cbn; lia).
    rewrite (IH (pre ++ [b]) _ Hall').
    rewrite toUpperCase_app. rewrite uid_text_cons.
    assert (Hpos : (0 <? length (pre ++ [b]))%nat = true).
    { apply Nat.ltb_lt. rewrite length_app. cbn. lia. }
    rewrite Hpos.
    rewrite <- (byte_text b Hb).
    destruct (0 <? length pre)%nat; destruct (b <? 16); destruct l;
      cbn [String.append toUpperCase];
      rewrite ?toUpperCase_app, ?sapp_assoc, ?sapp_nil_r;
      cbn [String.append toUpperCase]; reflexivity.
Qed.

Lemma hex2_value b :
  is_byte b ->
  match hex2 b with
  | String.String c1 (String.String c2 String.EmptyString) =>
      16 * digit_value c1 + digit_value c2 = b
  | _ => False
  end.
Proof.
  intros Hb.
  apply (bytes_checked (fun b =>
    match hex2 b with
    | String.String c1 (String.String c2 String.EmptyString) =>
        16 * digit_value c1 + digit_value c2 =? b
    | _ => false
    end)) in Hb.
  - unfold hex2 in *. apply Z.eqb_eq, Hb.
  - vm_compute. reflexivity.
Qed.

Lemma uid_text_inj u1 : forall u2,
  Forall is_byte u1 -> Forall is_byte u2 ->
  uid_text u1 = uid_text u2 -> u1 = u2.
Proof.
  induction u1 as [|a l1 IH]; intros u2 H1 H2 Heq.
  - destruct u2 as [|b l2]; [reflexivity|].
    rewrite uid_text_cons in Heq. unfold hex2 in Heq. cbn in Heq. discriminate Heq.
  - destruct u2 as [|b l2].
    + rewrite uid_text_cons in Heq. unfold hex2 in Heq. cbn in Heq. discriminate Heq.
    + inversion H1 as [|? ? Ha H1']; subst. inversion H2 as [|? ? Hb H2']; subst.
      rewrite !uid_text_cons in Heq.
      pose proof (hex2_value a Ha) as Va. pose proof (hex2_value b Hb) as Vb.
      unfold hex2 in *. cbn [String.append] in Heq.
      injection Heq as Hc1 Hc2 Hrest.
      rewrite Hc1, Hc2 in Va. assert (a = b) by congruence. subst b.
      f_equal. apply IH; try assumption.
      destruct l1 as [|x l1]; destruct l2 as [|y l2]; try reflexivity;
        cbn [String.append] in Hrest; try discriminate Hrest.
      injection Hrest as Hrest. exact Hrest.
Qed.

Lemma uid_text_length uid :
  String.length (uid_text uid) = (3 * length uid - 1)%nat.
Proof.
  induction uid as [|b l IH]; [reflexivity|].
  rewrite uid_text_cons, slength_app. unfold hex2. cbn [String.length].
  destruct l as [|c l]; [reflexivity|].
  rewrite slength_app, IH. cbn [String.length length]. lia.
Qed.

(** X15.  For a UID of bytes 0..255, [uidToString] prints every byte as
    exactly two upper-case hexadecimal digits, the bytes separated by
    colons: the text has [3 * length - 1] characters (none for the empty
    UID), and two UIDs that print the same are the same. *)
Theorem uidToString_format :
  forall uid : list Z,
    Forall is_byte uid ->
    uidToString uid (length uid) = uid_text uid /\
    String.length (uidToString uid (length uid)) = (3 * length uid - 1)%nat /\
    (forall uid' : list Z,
       Forall is_byte uid' ->
       uidToString uid' (length uid') = uidToString uid (length uid) ->
       uid' = uid).
Proof.
  assert (Htext : forall uid, Forall is_byte uid ->
                    uidToString uid (length uid) = uid_text uid).
  { intros uid Hall. unfold uidToString.
    pose proof (uidToString_from_text uid [] String.EmptyString Hall) as H.
    cbn [app length] in H. rewrite H. cbn [toUpperCase String.append].
    destruct uid; reflexivity. }
  intros uid Hall. split; [apply Htext, Hall|]. split.
  - rewrite (Htext uid Hall). apply uid_text_length.
  - intros uid' Hall' Heq. rewrite (Htext uid Hall), (Htext uid' Hall') in Heq.
    apply uid_text_inj; assumption.
Qed.

Lemma uidToString_format_witness :
  uidToString long_uid (length long_uid) = "04:A1:B2:C3:D4:E5:F6"%string.
Proof.
  destruct (uidToString_format long_uid) as [H _].
  - unfold long_uid, is_byte. repeat (constructor; [lia|]). constructor.
  - rewrite H. reflexivity.
Defined.

(** ** The whole run *)

Lemma handleSerialCommands_device toInt inp mode mem g d :
  device_run d (log_of (handleSerialCommands toInt inp mode mem g)) = Some d.
Proof.
  unfold handleSerialCommands.
  destruct (serial_line inp) as [cmd|]; [|reflexivity].
  destruct (String.prefix "write " cmd).
  - cbv zeta. destruct (_ && _); [|reflexivity].
    rewrite !bind_run. unfold emit_all. cbn.
    pose proof (writeSongNumber_log (to_uint8
      (toInt (String.substring 6 (String.length cmd - 6) cmd)))
      (cmd_detect inp) (cmd_writeOk inp) mem) as [Hl | Hl];
      rewrite Hl; reflexivity.
  - destruct (String.eqb cmd "read").
    + rewrite bind_run, readSongTag_run.
      destruct (waitForTag (cmd_detect inp) 0 50); reflexivity.
    + destruct (String.eqb cmd "playmode"); [reflexivity|].
      destruct (0 <? String.length cmd)%nat; reflexivity.
Qed.

Lemma loop_step toInt inp i mem g :
  playback_inv (state g) ->
  let r := loop toInt inp i PLAY_MODE mem g in
  fst (fst (value_of r)) = PLAY_MODE /\
  playback_inv (state (globals_of r)) /\
  device_run (mirror g) (log_of r) = Some (mirror (globals_of r)).
Proof.
  intros Hinv. cbv zeta.
  destruct (handleSerialCommands_frame toInt inp PLAY_MODE mem g)
    as (Hg & Hm & _).
  pose proof (handleSerialCommands_device toInt inp PLAY_MODE mem g (mirror g)) as Hd.
  assert (Hmode : fst (fst (value_of (handleSerialCommands toInt inp PLAY_MODE mem g)))
                  = PLAY_MODE) by (destruct Hm; assumption).
  destruct (follows_loop_play i g Hinv) as [Hf Hinv'].
  unfold loop. rewrite bind_run.
  destruct (handleSerialCommands toInt inp PLAY_MODE mem g) as [[v g1] l1].
  unfold value_of, globals_of, log_of in *. cbn [fst snd] in *. subst g1.
  rewrite Hmode, bind_run.
  destruct (loop_play i g) as [[[] g2] l2]. cbn [fst snd] in *.
  cbn [mret M_ret fst snd]. unfold mret, M_ret. cbn [fst snd].
  rewrite app_nil_r, device_run_app, Hd. auto.
Qed.

(** X16.  [setup] returns exactly when the audio module answers and the
    reader reports a firmware version; it then has switched the LED off
    and set the module to volume 20.  From there on, through any run of
    [loop] iterations with any serial input, the firmware stays in
    [PLAY_MODE], a track is recorded exactly while a song plays, and the
    commands sent since power-on (the audio module idle at power-on)
    are accepted by the peripherals and leave them as the firmware state
    says: track, LED and volume. *)
Theorem firmware_run_mirrors_peripherals :
  forall (toInt : String.string -> Z) (dfBeginOk : bool) (version : Z)
         (its : list (CmdInput * Tick)) (mem : gmap Z (list Z)) (d0 : Device),
    (setup dfBeginOk version = None <-> dfBeginOk = false \/ version = 0) /\
    (forall bootLog : list Effect,
       setup dfBeginOk version = Some bootLog ->
       dev_track d0 = 0 ->
       let r := run_loop toInt its PLAY_MODE mem globals_init in
       let g := snd (fst r) in
       fst (fst (fst r)) = PLAY_MODE /\
       playback_inv (state g) /\
       device_run d0 (bootLog ++ concat (snd r)) = Some (mirror g)).
Proof.
  intros toInt dfBeginOk version its mem d0. split.
  - unfold setup, initializeDFPlayer, initializeNFC.
    destruct dfBeginOk; cbn [negb]; destruct (version =? 0) eqn:E; bool_facts;
      split; auto; try discriminate; intros [H | H]; congruence.
  - intros bootLog Hboot Hidle.
    assert (Hlog : bootLog = [LedWrite LOW; DfVolume 20; DfEQ; DfOutputDevice]).
    { unfold setup, initializeDFPlayer, initializeNFC in Hboot.
      destruct dfBeginOk; cbn [negb] in Hboot; [|discriminate].
      destruct (version =? 0); [discriminate|]. injection Hboot as <-. reflexivity. }
    assert (Hrun : forall its mem g,
      playback_inv (state g) ->
      let r := run_loop toInt its PLAY_MODE mem g in
      fst (fst (fst r)) = PLAY_MODE /\
      playback_inv (state (snd (fst r))) /\
      device_run (mirror g) (concat (snd r)) = Some (mirror (snd (fst r)))).
    { clear. induction its as [|it its IH]; intros mem g Hinv; cbv zeta.
      - cbn. auto.
      - cbn [run_loop]. cbv zeta.
        destruct (loop_step toInt (fst it) (snd it) mem g Hinv) as (Hm & Hi & Hd).
        rewrite Hm.
        destruct (IH (snd (fst (value_of (loop toInt (fst it) (snd it) PLAY_MODE mem g))))
                    (globals_of (loop toInt (fst it) (snd it) PLAY_MODE mem g)) Hi)
          as (IH1 & IH2 & IH3).
        cbn [fst snd concat]. rewrite device_run_app, Hd. auto. }
    cbv zeta.
    assert (Hinit : playback_inv (state globals_init)).
    { unfold playback_inv. cbn. split; [discriminate | congruence]. }
    destruct (Hrun its mem globals_init Hinit) as (H1 & H2 & H3).
    split; [exact H1|]. split; [exact H2|].
    rewrite device_run_app, Hlog. destruct d0 as [t l v]. cbn in Hidle. subst t.
    exact H3.
Qed.

(** Power-on, then "write 7" while no tag is on the reader for playing,
    then an iteration in which a tag with song 7 is put down. *)
Lemma firmware_run_mirrors_peripherals_witness :
  let its := [(write_7, tick_at 1000 None None);
              (mkCmdInput None (fun _ => false) false false,
               tick_at 1200 (Some long_uid) song7_page)] in
  let r := run_loop (digits_value 0) its PLAY_MODE ∅ globals_init in
  let g := snd (fst r) in
  fst (fst (fst r)) = PLAY_MODE /\
  playback_inv (state g) /\
  device_run (mkDevice 0 true 5)
    ([LedWrite LOW; DfVolume 20; DfEQ; DfOutputDevice] ++ concat (snd r))
  = Some (mirror g).
Proof.
  destruct (firmware_run_mirrors_peripherals (digits_value 0) true 50
              [(write_7, tick_at 1000 None None);
               (mkCmdInput None (fun _ => false) false false,
                tick_at 1200 (Some long_uid) song7_page)]
              ∅ (mkDevice 0 true 5)) as [_ H].
  apply (H [LedWrite LOW; DfVolume 20; DfEQ; DfOutputDevice]); reflexivity.
Defined.

(** ** A tag left on the reader, and a tag put back late *)

Lemma run_ticks_tag_stays_quiet uid ticks : forall g,
  isTagPresent (state g) = true ->
  uidsMatch uid (lastUID (state g)) (length uid) = true ->
  Forall (fun i => nfc_target i = Some uid) ticks ->
  let r := run_ticks ticks g in
  Forall (fun log => count is_stop log = 0%nat /\ count is_play log = 0%nat /\
                     count is_read_page log = 0%nat) (snd r) /\
  isSongPlaying (state (fst r)) = isSongPlaying (state g) /\
  currentTrack (state (fst r)) = currentTrack (state g) /\
  isTagPresent (state (fst r)) = true.
Proof.
  induction ticks as [|i ticks IH]; intros g Hpres Hmatch Hall; cbv zeta.
  - cbn. repeat split; auto.
  - inversion Hall as [|? ? Htag Hall']; subst.
    destruct (loop_play_tag_stays i g uid Htag Hpres Hmatch)
      as (Hp & Hu & Hs & Ht & Hstop & Hplay & Hread).
    set (g1 := globals_of (loop_play i g)) in *.
    rewrite <- Hu in Hmatch.
    destruct (IH g1 Hp Hmatch Hall') as (IH1 & IH2 & IH3 & IH4).
    cbn [run_ticks fst snd]. fold g1.
    split; [constructor; auto|]. rewrite IH2, IH3. auto.
Qed.

(** X17.  A tag with a valid record for song [n] is put down and stays:
    the iteration whose poll first detects it leaves song [n] playing,
    and in every later iteration in which the reader still answers the
    same UID, whatever a page read would answer, no play command, no
    stop command and no page read is issued: the track is started once
    and plays on. *)
Theorem tag_left_on_reader_plays_once :
  forall (i : Tick) (later : list Tick) (g : Globals) (uid : list Z) (n : Z),
    nfc_target i = Some uid ->
    poll_due (ms_loop i) (state g) = true ->
    isNewTag uid (state g) = true ->
    song_of (nfc_page i) = n ->
    1 <= n <= 99 ->
    Forall (fun i' => nfc_target i' = Some uid) later ->
    let r := run_ticks (i :: later) g in
    Forall (fun log => count is_stop log = 0%nat /\ count is_play log = 0%nat /\
                       count is_read_page log = 0%nat) (tail (snd r)) /\
    isSongPlaying (state (fst r)) = true /\
    currentTrack (state (fst r)) = n.
Proof.
  intros i later g uid n Htag Hdue Hnew Hsong Hn Hall. cbv zeta.
  destruct (loop_play_new_tag i g uid n Htag Hdue Hnew Hsong Hn)
    as (_ & Hp & Ht & Hpres & Hst & _).
  cbn [run_ticks fst snd tail].
  set (g1 := globals_of (loop_play i g)) in *.
  assert (Hmatch : uidsMatch uid (lastUID (state g1)) (length uid) = true).
  { apply uidsMatch_from_spec. intros k Hk.
    unfold stored_uid in Hst.
    assert (Hk' : (k < length uid)%nat) by lia.
    rewrite <- Hst at 1.
    rewrite <- (firstn_skipn (Z.to_nat (lastUIDLength (state g1))) (lastUID (state g1)))
      at 2.
    rewrite app_nth1; [reflexivity|].
    change (firstn (Z.to_nat (lastUIDLength (state g1))) (lastUID (state g1)))
      with (take (Z.to_nat (lastUIDLength (state g1))) (lastUID (state g1))).
    rewrite Hst. exact Hk'. }
  destruct (run_ticks_tag_stays_quiet uid later g1 Hpres Hmatch Hall)
    as (H1 & H2 & H3 & _).
  split; [exact H1|]. rewrite H2, H3. auto.
Qed.

Lemma tag_left_on_reader_plays_once_witness :
  let r := run_ticks [tick_at 1000 (Some long_uid) song7_page;
                      tick_at 1200 (Some long_uid) None;
                      tick_at 1400 (Some long_uid) (Some [0; 0; 0; 0])]
             globals_init in
  Forall (fun log => count is_stop log = 0%nat /\ count is_play log = 0%nat /\
                     count is_read_page log = 0%nat) (tail (snd r)) /\
  isSongPlaying (state (fst r)) = true /\
  currentTrack (state (fst r)) = 7.
Proof.
  apply (tag_left_on_reader_plays_once
           (tick_at 1000 (Some long_uid) song7_page)
           [tick_at 1200 (Some long_uid) None;
            tick_at 1400 (Some long_uid) (Some [0; 0; 0; 0])]
           globals_init long_uid 7).
  - reflexivity.
  - reflexivity.
  - reflexivity.
  - reflexivity.
  - lia.
  - repeat (constructor; [reflexivity|]). constructor.
Defined.

Lemma run_ticks_stopped_state ticks : forall g,
  isSongPlaying (state g) = false ->
  isTagPresent (state g) = false ->
  Forall (fun i => nfc_target i = None) ticks ->
  isSongPlaying (state (fst (run_ticks ticks g))) = false /\
  isTagPresent (state (fst (run_ticks ticks g))) = false.
Proof.
  induction ticks as [|i ticks IH]; intros g Hplay Hpres Hall; [cbn; auto|].
  inversion Hall as [|? ? Hnone Hall']; subst.
  destruct (loop_play_no_tag i g Hnone) as (Hpr & _ & _ & Hp & _).
  rewrite Hplay in Hp. rewrite Hpres in Hpr. cbn in Hp, Hpr.
  cbn [run_ticks fst]. apply IH; assumption.
Qed.

Lemma run_ticks_grace_expiry_state pre : forall g tk post,
  isSongPlaying (state g) = true ->
  Forall (fun i => nfc_target i = None) (pre ++ tk :: post) ->
  Forall (fun i => elapsed g i <= TAG_GRACE_PERIOD) pre ->
  elapsed g tk > TAG_GRACE_PERIOD ->
  isTagPresent (state g) = false \/ Exists (polls_in g) (pre ++ [tk]) ->
  isSongPlaying (state (fst (run_ticks (pre ++ tk :: post) g))) = false /\
  isTagPresent (state (fst (run_ticks (pre ++ tk :: post) g))) = false.
Proof.
  induction pre as [|i pre IH]; intros g tk post Hplay Hall Hgrace Hexp Hseen.
  - cbn [app] in *. inversion Hall as [|? ? Hnone Hall']; subst.
    destruct (loop_play_no_tag tk g Hnone) as (Hpr & _ & _ & Hp & _).
    assert (Hnp : isTagPresent (state g) && negb (poll_due (ms_loop tk) (state g))
                  = false).
    { destruct Hseen as [Ha | Hex]; [rewrite Ha; reflexivity|].
      inversion Hex as [? ? Hd | ? ? Hd]; subst; [|inversion Hd].
      unfold polls_in in Hd. rewrite Hd. apply andb_false_r. }
    apply Z.gtb_gt in Hexp.
    rewrite Hnp, Hplay, Hexp in Hp. rewrite Hnp in Hpr. cbn in Hp.
    cbn [run_ticks fst]. apply run_ticks_stopped_state; assumption.
  - cbn [app] in *. inversion Hall as [|? ? Hnone Hall']; subst.
    inversion Hgrace as [|? ? Hle Hgrace']; subst.
    destruct (loop_play_no_tag i g Hnone) as (Hpr & Ht & Hn & Hp & _).
    assert (Hno : (elapsed g i >? TAG_GRACE_PERIOD) = false).
    { rewrite Z.gtb_ltb. apply Z.ltb_ge. exact Hle. }
    rewrite Hno, andb_false_r in Hp. rewrite Hplay in Hp. cbn in Hp.
    set (g1 := globals_of (loop_play i g)) in *.
    assert (Hgrace1 : Forall (fun i => elapsed g1 i <= TAG_GRACE_PERIOD) pre).
    { unfold elapsed in *. rewrite Ht. exact Hgrace'. }
    assert (Hexp1 : elapsed g1 tk > TAG_GRACE_PERIOD).
    { unfold elapsed in *. rewrite Ht. exact Hexp. }
    assert (Hseen1 : isTagPresent (state g1) = false \/
                     Exists (polls_in g1) (pre ++ [tk])).
    { rewrite Hpr. destruct Hseen as [Ha | Hex]; [left; rewrite Ha; reflexivity|].
      destruct (poll_due (ms_loop i) (state g)) eqn:Hd.
      - left. apply andb_false_r.
      - inversion Hex as [? ? Hd' | ? ? Hex']; subst.
        + unfold polls_in in Hd'. congruence.
        + right. unfold polls_in, poll_due in *. rewrite Hn. exact Hex'. }
    cbn [run_ticks fst]. fold g1.
    apply (IH g1 tk post Hp Hall' Hgrace1 Hexp1 Hseen1).
Qed.

(** X18.  A tag lifted for longer than the grace period and put back
    starts its track again: after a run without tag in which the song
    was stopped by the grace period (as in C2), an iteration whose poll
    detects a tag with a valid record for song [n], be it the same tag
    as before, sends a play command for [n] and no stop command, and
    leaves song [n] playing. *)
Theorem tag_put_back_late_restarts :
  forall (g : Globals) (pre : list Tick) (tk : Tick) (post : list Tick)
         (back : Tick) (uid : list Z) (n : Z),
    isSongPlaying (state g) = true ->
    Forall (fun i => nfc_target i = None) (pre ++ tk :: post) ->
    Forall (fun i => elapsed g i <= TAG_GRACE_PERIOD) pre ->
    elapsed g tk > TAG_GRACE_PERIOD ->
    isTagPresent (state g) = false \/ Exists (polls_in g) (pre ++ [tk]) ->
    nfc_target back = Some uid ->
    polls_in (fst (run_ticks (pre ++ tk :: post) g)) back ->
    song_of (nfc_page back) = n ->
    1 <= n <= 99 ->
    let g1 := fst (run_ticks (pre ++ tk :: post) g) in
    let r := loop_play back g1 in
    playback_cmds (log_of r) = [DfPlay n] /\
    isSongPlaying (state (globals_of r)) = true /\
    currentTrack (state (globals_of r)) = n.
Proof.
  intros g pre tk post back uid n Hplay Hall Hgrace Hexp Hseen Htag Hdue Hsong Hn.
  cbv zeta.
  destruct (run_ticks_grace_expiry_state pre g tk post Hplay Hall Hgrace Hexp Hseen)
    as [Hoff Haway].
  set (g1 := fst (run_ticks (pre ++ tk :: post) g)) in *.
  assert (Hnew : isNewTag uid (state g1) = true).
  { unfold isNewTag. rewrite Haway. reflexivity. }
  destruct (loop_play_new_tag back g1 uid n Htag Hdue Hnew Hsong Hn)
    as (H1 & H2 & H3 & _).
  rewrite Hoff in H1. auto.
Qed.

(** The tag of [tag7_present] is lifted, the song stops at 3001 ms, the
    same tag is put back at 4000 ms. *)
Lemma tag_put_back_late_restarts_witness :
  let g1 := fst (run_ticks (away_ticks ++ tick_at 3001 None None :: [])
                   tag7_present) in
  let r := loop_play (tick_at 4000 (Some long_uid) song7_page) g1 in
  playback_cmds (log_of r) = [DfPlay 7] /\
  isSongPlaying (state (globals_of r)) = true /\
  currentTrack (state (globals_of r)) = 7.
Proof.
  apply (tag_put_back_late_restarts tag7_present away_ticks
           (tick_at 3001 None None) [] (tick_at 4000 (Some long_uid) song7_page)
           long_uid 7).
  - reflexivity.
  - repeat (constructor; [reflexivity|]). constructor.
  - repeat (constructor; [apply Z.leb_le; reflexivity|]). constructor.
  - apply Z.gtb_gt. reflexivity.
  - right. constructor. reflexivity.
  - reflexivity.
  - reflexivity.
  - reflexivity.
  - lia.
Defined.
